(** * FNET_Transport: the facade over a pool of transport threads

    A shallow embedding of [fnet/src/vespa/fnet/transport.cpp].

    The facade owns a vector of [FNET_TransportThread] workers and a shared
    handle to an asynchronous resolver.  Every member function is a thin
    piece of control flow around calls into these collaborators, so the
    embedding keeps the collaborators abstract: a member function is a
    computation that issues _queries_ (calls on a worker, on the resolver,
    a clock reading, ...) to an environment and records each query together
    with its answer.  What is proved about a member function is therefore
    proved for every behaviour of the collaborators.

    Conventions
    - 64-bit and 32-bit unsigned integers are [Z] with the wrap-around
      written out ([u64], [u32]);
    - pointers to collaborators are addresses ([addr]);
    - a [const char *] argument is the list of bytes found at the pointer,
      up to the terminator that ends the allocation (see [c_str]);
    - [assert] is modelled as the outcome [AssertFail]; an operation the C++
      standard leaves undefined is the outcome [Undefined]. *)

From Stdlib Require Import Strings.Byte Strings.String.
From Stdlib Require Import ZArith List Lia Bool.
Import ListNotations.

Open Scope Z_scope.

(* ================================================================== *)
(** ** Machine integers and bytes *)

Definition u64 (x : Z) : Z := x mod 2 ^ 64.
Definition u32 (x : Z) : Z := x mod 2 ^ 32.

Definition byte_to_Z (b : byte) : Z := Z.of_N (Byte.to_N b).

Definition Z_to_byte (x : Z) : byte :=
  match Byte.of_N (Z.to_N (x mod 256)) with
  | Some b => b
  | None => x00
  end.

(** Little-endian decoding of a run of bytes (x86-64 byte order). *)
Fixpoint le_decode (bs : list byte) : Z :=
  match bs with
  | [] => 0
  | b :: rest => byte_to_Z b + 256 * le_decode rest
  end.

(** Little-endian encoding of the low [n] bytes of [x]. *)
Fixpoint le_encode (n : nat) (x : Z) : list byte :=
  match n with
  | O => []
  | S n' => Z_to_byte x :: le_encode n' (Z.shiftr x 8)
  end.

(** Addresses: the value of a pointer. *)
Definition addr := Z.

(* ================================================================== *)
(** ** Memory seen through the arguments *)

(** A [const char *spec] argument.  The list holds the bytes stored at the
    pointer; the byte after the last one is the NUL that ends the buffer.
    The list itself may contain NUL bytes: then the C string ends early,
    while the tail of the list is still the memory behind the pointer. *)
Definition c_str := list byte.

(** [strlen]: the number of bytes before the first NUL. *)
Fixpoint strlen (s : c_str) : nat :=
  match s with
  | [] => O
  | b :: rest => if Byte.eqb b x00 then O else S (strlen rest)
  end.

(** A [const void *key] argument: the null pointer or a pointer to bytes. *)
Inductive ptr : Type :=
| nullptr
| ptr_to (bytes : list byte).

(** The [len] bytes an external routine reads through [p].  The facade only
    passes [(spec, strlen spec)] and [(nullptr, 0)], which stay inside the
    buffer; a longer read would leave it, and is cut at its end here. *)
Definition mem_read (p : ptr) (len : nat) : list byte :=
  match p with
  | nullptr => []
  | ptr_to bytes => firstn len bytes
  end.

(* ================================================================== *)
(** ** XXH64 *)

(** Modelled from the spec: [XXH64] ([vespa/vespalib/xxhash/xxhash.h]) is
    not among the sources, and the spec only calls it "a 64-bit hash".  The
    facade is embedded over an arbitrary hash function (the parameter
    [XXH64] of the sections below).  The instance [XXH64_ref] follows the
    xxHash 64-bit algorithm and is used where a concrete run is exhibited. *)
Module XXH.

Definition PRIME64_1 : Z := 11400714785074694791.
Definition PRIME64_2 : Z := 14029467366897019727.
Definition PRIME64_3 : Z := 1609587929392839161.
Definition PRIME64_4 : Z := 9650029242287828579.
Definition PRIME64_5 : Z := 2870177450012600261.

Definition rotl64 (x : Z) (r : Z) : Z :=
  u64 (Z.lor (Z.shiftl x r) (Z.shiftr x (64 - r))).

Definition round (acc input : Z) : Z :=
  let acc := u64 (acc + input * PRIME64_2) in
  let acc := rotl64 acc 31 in
  u64 (acc * PRIME64_1).

Definition mergeRound (acc val : Z) : Z :=
  let val := round 0 val in
  let acc := Z.lxor acc val in
  u64 (acc * PRIME64_1 + PRIME64_4).

Definition avalanche (h : Z) : Z :=
  let h := Z.lxor h (Z.shiftr h 33) in
  let h := u64 (h * PRIME64_2) in
  let h := Z.lxor h (Z.shiftr h 29) in
  let h := u64 (h * PRIME64_3) in
  Z.lxor h (Z.shiftr h 32).

(** The main loop: [n] stripes of 32 bytes, four lanes of 8 bytes. *)
Fixpoint stripes (n : nat) (p : list byte) (v : Z * Z * Z * Z)
  : (Z * Z * Z * Z) * list byte :=
  match n with
  | O => (v, p)
  | S n' =>
      let '(v1, v2, v3, v4) := v in
      let v1 := round v1 (le_decode (firstn 8 p)) in
      let v2 := round v2 (le_decode (firstn 8 (skipn 8 p))) in
      let v3 := round v3 (le_decode (firstn 8 (skipn 16 p))) in
      let v4 := round v4 (le_decode (firstn 8 (skipn 24 p))) in
      stripes n' (skipn 32 p) (v1, v2, v3, v4)
  end.

(** The tail: words of 8 bytes, ... *)
Fixpoint tail8 (n : nat) (p : list byte) (h : Z) : Z * list byte :=
  match n with
  | O => (h, p)
  | S n' =>
      let k1 := round 0 (le_decode (firstn 8 p)) in
      let h := Z.lxor h k1 in
      let h := u64 (rotl64 h 27 * PRIME64_1 + PRIME64_4) in
      tail8 n' (skipn 8 p) h
  end.

(** ... then one word of 4 bytes, ... *)
Definition tail4 (p : list byte) (h : Z) : Z * list byte :=
  if (4 <=? length p)%nat then
    let h := Z.lxor h (u64 (le_decode (firstn 4 p) * PRIME64_1)) in
    (u64 (rotl64 h 23 * PRIME64_2 + PRIME64_3), skipn 4 p)
  else (h, p).

(** ... then single bytes. *)
Fixpoint tail1 (p : list byte) (h : Z) : Z :=
  match p with
  | [] => h
  | b :: rest =>
      let h := Z.lxor h (u64 (byte_to_Z b * PRIME64_5)) in
      tail1 rest (u64 (rotl64 h 11 * PRIME64_1))
  end.

Definition XXH64_ref (input : list byte) (seed : Z) : Z :=
  let len := length input in
  let '(h, p) :=
    if (32 <=? len)%nat then
      let v := (u64 (seed + PRIME64_1 + PRIME64_2), u64 (seed + PRIME64_2),
                u64 seed, u64 (seed - PRIME64_1)) in
      let '(v1, v2, v3, v4, p) := stripes (len / 32) input v in
      let h := u64 (rotl64 v1 1 + rotl64 v2 7 + rotl64 v3 12 + rotl64 v4 18) in
      let h := mergeRound h v1 in
      let h := mergeRound h v2 in
      let h := mergeRound h v3 in
      let h := mergeRound h v4 in
      (h, p)
    else (u64 (seed + PRIME64_5), input) in
  let h := u64 (h + Z.of_nat len) in
  let '(h, p) := tail8 (length p / 8) p h in
  let '(h, p) := tail4 p h in
  avalanche (tail1 p h).

End XXH.

(* ================================================================== *)
(** ** The collaborators *)

(** [FNET_IOComponent]: the facade only uses its address (forwarded to the
    worker) and [Owner()], the back-reference to the worker that owns it. *)
Record FNET_IOComponent : Type := {
  comp_addr : addr;
  Owner : addr
}.

(** The member functions of [FNET_TransportThread] the facade calls, indexed
    by their result type.  Pointer arguments and results are addresses;
    [FNET_Context] is an opaque machine word. *)
Inductive ThreadMethod : Type -> Type :=
| thr_Listen (spec : c_str) (streamer serverAdapter : addr) : ThreadMethod addr
| thr_Connect (spec : c_str) (streamer adminHandler : addr) (adminContext : Z)
              (serverAdapter : addr) (connContext : Z) : ThreadMethod addr
| thr_GetNumIOComponents : ThreadMethod Z
| thr_SetIOCTimeOut (ms : Z) : ThreadMethod unit
| thr_SetMaxInputBufferSize (bytes : Z) : ThreadMethod unit
| thr_SetMaxOutputBufferSize (bytes : Z) : ThreadMethod unit
| thr_SetDirectWrite (directWrite : bool) : ThreadMethod unit
| thr_SetTCPNoDelay (noDelay : bool) : ThreadMethod unit
| thr_SetLogStats (logStats : bool) : ThreadMethod unit
| thr_sync : ThreadMethod unit
| thr_GetScheduler : ThreadMethod addr
| thr_execute (exe : addr) : ThreadMethod bool
| thr_ShutDown (waitFinished : bool) : ThreadMethod unit
| thr_WaitFinished : ThreadMethod unit
| thr_Start (pool : addr) : ThreadMethod bool
| thr_Add (comp : FNET_IOComponent) (needRef : bool) : ThreadMethod unit
| thr_EnableRead (comp : FNET_IOComponent) (needRef : bool) : ThreadMethod unit
| thr_DisableRead (comp : FNET_IOComponent) (needRef : bool) : ThreadMethod unit
| thr_EnableWrite (comp : FNET_IOComponent) (needRef : bool) : ThreadMethod unit
| thr_DisableWrite (comp : FNET_IOComponent) (needRef : bool) : ThreadMethod unit
| thr_Close (comp : FNET_IOComponent) (needRef : bool) : ThreadMethod unit
| thr_GetTimeSampler : ThreadMethod addr
| thr_InitEventLoop : ThreadMethod bool
| thr_EventLoopIteration : ThreadMethod bool
| thr_Main : ThreadMethod unit.

(** The member functions of [vespalib::AsyncResolver] the facade calls. *)
Inductive ResolverMethod : Type -> Type :=
| res_wait_for_pending_resolves : ResolverMethod unit
| res_resolve_async (spec : list byte) (result_handler : addr) : ResolverMethod unit.

(** Everything the facade asks of the world around it. *)
Inductive Query : Type -> Type :=
| q_address_of_local : Query addr
    (* where the local [hash_state] of this call is placed: the value of
       [this] inside the constructor of [HashState] *)
| q_clock_now : Query Z
    (* [std::chrono::high_resolution_clock::now()], as its tick count *)
| q_new_thread (owner : addr) : Query addr
    (* [new FNET_TransportThread( *this )]: the new worker *)
| q_thread (thread : addr) {R : Type} (m : ThreadMethod R) : Query R
| q_resolver (resolver : addr) {R : Type} (m : ResolverMethod R) : Query R.

(** One interaction: a query and the answer it got. *)
Inductive Event : Type :=
| Ev {R : Type} (q : Query R) (answer : R).

Definition History := list Event.

(** The world around the facade: it answers each query, and the answer may
    depend on everything that happened before. *)
Definition Env := forall R : Type, History -> Query R -> R.

(* ================================================================== *)
(** ** Computations *)

Inductive result (A : Type) : Type :=
| Ok (a : A)
| AssertFail
| Undefined.

Arguments Ok {A} a.
Arguments AssertFail {A}.
Arguments Undefined {A}.

(** A computation runs in an environment, after a history, and yields a
    value together with the events it added, in the order they happened. *)
Definition M (A : Type) : Type := Env -> History -> result (A * list Event).

Definition ret {A : Type} (a : A) : M A :=
  fun _ _ => Ok (a, []).

Definition bind {A B : Type} (m : M A) (f : A -> M B) : M B :=
  fun env h =>
    match m env h with
    | Ok (a, t1) =>
        match f a env (h ++ t1) with
        | Ok (b, t2) => Ok (b, t1 ++ t2)
        | AssertFail => AssertFail
        | Undefined => Undefined
        end
    | AssertFail => AssertFail
    | Undefined => Undefined
    end.

Declare Scope facade_scope.
Delimit Scope facade_scope with facade.
Notation "x <- m ;; k" := (bind m (fun x => k))
  (at level 61, m at next level, right associativity) : facade_scope.
Notation "m ;;; k" := (bind m (fun _ => k))
  (at level 61, right associativity) : facade_scope.
Open Scope facade_scope.

Definition perform {R : Type} (q : Query R) : M R :=
  fun env h => let r := env R h q in Ok (r, [Ev q r]).

Definition assert (b : bool) : M unit :=
  fun _ _ => if b then Ok (tt, []) else AssertFail.

Definition undefined {A : Type} : M A :=
  fun _ _ => Undefined.

(** [for (const auto &thread: _threads) { body }] *)
Fixpoint for_each {A : Type} (body : A -> M unit) (l : list A) : M unit :=
  match l with
  | [] => ret tt
  | x :: rest => body x ;;; for_each body rest
  end.

(* ================================================================== *)
(** ** transport.cpp *)

(** [struct HashState] *)
Record HashState : Type := {
  self : addr;
  now : Z;
  key_hash : Z
}.

(** The object representation of a [HashState], the [sizeof(hash_state)]
    bytes at [&hash_state]: three 8-byte members without padding, each in
    little-endian order (the x86-64 layout). *)
Definition object_bytes (hs : HashState) : list byte :=
  le_encode 8 (self hs) ++ le_encode 8 (now hs) ++ le_encode 8 (key_hash hs).

(** [class FNET_Transport]: the data members. *)
Record FNET_Transport : Type := {
  _async_resolver : addr;
  _threads : list addr
}.

Section Transport.

(** [XXH64(input, len, seed)], applied to the [len] bytes read at [input]. *)
Variable XXH64 : list byte -> Z -> Z.

(** [HashState::HashState(const void *key, size_t key_len)] *)
Definition HashState_ctor (key : ptr) (key_len : nat) : M HashState :=
  this <- perform q_address_of_local ;;
  clock_now <- perform q_clock_now ;;
  ret {| self := this;
         now := clock_now;
         key_hash := u64 (XXH64 (mem_read key key_len) 0) |}.

(** [FNET_Transport::select_thread].  With an empty [_threads] the [%] is
    a division by zero. *)
Definition select_thread (this : FNET_Transport) (key : ptr) (key_len : nat)
  : M addr :=
  hash_state <- HashState_ctor key key_len ;;
  let hash_value := u64 (XXH64 (object_bytes hash_state) 0) in
  match length (_threads this) with
  | O => undefined
  | size =>
      let thread_id := Z.to_nat (hash_value mod Z.of_nat size) in
      match nth_error (_threads this) thread_id with
      | Some thread => ret thread
      | None => undefined
      end
  end.

(** The loop of the constructor: [num_threads] times [emplace_back]. *)
Fixpoint new_threads (owner : addr) (num_threads : nat) : M (list addr) :=
  match num_threads with
  | O => ret []
  | S n =>
      thread <- perform (q_new_thread owner) ;;
      rest <- new_threads owner n ;;
      ret (thread :: rest)
  end.

(** [FNET_Transport::FNET_Transport(resolver, num_threads)], constructing
    the object at address [this]. *)
Definition FNET_Transport_ctor (this : addr) (resolver : addr)
           (num_threads : nat) : M FNET_Transport :=
  assert (1 <=? num_threads)%nat ;;;
  threads <- new_threads this num_threads ;;
  ret {| _async_resolver := resolver; _threads := threads |}.

(** [FNET_Transport::~FNET_Transport()]: the body of the destructor. *)
Definition FNET_Transport_dtor (this : FNET_Transport) : M unit :=
  perform (q_resolver (_async_resolver this) res_wait_for_pending_resolves).

Definition resolve_async (this : FNET_Transport) (spec : list byte)
           (result_handler : addr) : M unit :=
  perform (q_resolver (_async_resolver this)
                      (res_resolve_async spec result_handler)).

Definition Listen (this : FNET_Transport) (spec : c_str)
           (streamer serverAdapter : addr) : M addr :=
  thread <- select_thread this (ptr_to spec) (strlen spec) ;;
  perform (q_thread thread (thr_Listen spec streamer serverAdapter)).

Definition Connect (this : FNET_Transport) (spec : c_str)
           (streamer adminHandler : addr) (adminContext : Z)
           (serverAdapter : addr) (connContext : Z) : M addr :=
  thread <- select_thread this (ptr_to spec) (strlen spec) ;;
  perform (q_thread thread
             (thr_Connect spec streamer adminHandler adminContext
                          serverAdapter connContext)).

(** The loop of [GetNumIOComponents]; [result] is a [uint32_t]. *)
Fixpoint GetNumIOComponents_loop (threads : list addr) (result : Z) : M Z :=
  match threads with
  | [] => ret result
  | thread :: rest =>
      n <- perform (q_thread thread thr_GetNumIOComponents) ;;
      GetNumIOComponents_loop rest (u32 (result + n))
  end.

Definition GetNumIOComponents (this : FNET_Transport) : M Z :=
  GetNumIOComponents_loop (_threads this) 0.

Definition SetIOCTimeOut (this : FNET_Transport) (ms : Z) : M unit :=
  for_each (fun thread => perform (q_thread thread (thr_SetIOCTimeOut ms)))
           (_threads this).

Definition SetMaxInputBufferSize (this : FNET_Transport) (bytes : Z) : M unit :=
  for_each (fun thread =>
              perform (q_thread thread (thr_SetMaxInputBufferSize bytes)))
           (_threads this).

Definition SetMaxOutputBufferSize (this : FNET_Transport) (bytes : Z) : M unit :=
  for_each (fun thread =>
              perform (q_thread thread (thr_SetMaxOutputBufferSize bytes)))
           (_threads this).

Definition SetDirectWrite (this : FNET_Transport) (directWrite : bool) : M unit :=
  for_each (fun thread =>
              perform (q_thread thread (thr_SetDirectWrite directWrite)))
           (_threads this).

Definition SetTCPNoDelay (this : FNET_Transport) (noDelay : bool) : M unit :=
  for_each (fun thread => perform (q_thread thread (thr_SetTCPNoDelay noDelay)))
           (_threads this).

Definition SetLogStats (this : FNET_Transport) (logStats : bool) : M unit :=
  for_each (fun thread => perform (q_thread thread (thr_SetLogStats logStats)))
           (_threads this).

Definition sync (this : FNET_Transport) : M unit :=
  for_each (fun thread => perform (q_thread thread thr_sync)) (_threads this).

Definition GetScheduler (this : FNET_Transport) : M addr :=
  thread <- select_thread this nullptr 0 ;;
  perform (q_thread thread thr_GetScheduler).

Definition execute (this : FNET_Transport) (exe : addr) : M bool :=
  thread <- select_thread this nullptr 0 ;;
  perform (q_thread thread (thr_execute exe)).

Definition ShutDown (this : FNET_Transport) (waitFinished : bool) : M unit :=
  for_each (fun thread => perform (q_thread thread (thr_ShutDown waitFinished)))
           (_threads this).

Definition WaitFinished (this : FNET_Transport) : M unit :=
  for_each (fun thread => perform (q_thread thread thr_WaitFinished))
           (_threads this).

(** The loop of [Start]: [result &= thread->Start(pool)] evaluates the
    call whatever [result] is. *)
Fixpoint Start_loop (threads : list addr) (pool : addr) (result : bool)
  : M bool :=
  match threads with
  | [] => ret result
  | thread :: rest =>
      started <- perform (q_thread thread (thr_Start pool)) ;;
      Start_loop rest pool (result && started)
  end.

Definition Start (this : FNET_Transport) (pool : addr) : M bool :=
  Start_loop (_threads this) pool true.

Definition Add (this : FNET_Transport) (comp : FNET_IOComponent)
           (needRef : bool) : M unit :=
  perform (q_thread (Owner comp) (thr_Add comp needRef)).

Definition EnableRead (this : FNET_Transport) (comp : FNET_IOComponent)
           (needRef : bool) : M unit :=
  perform (q_thread (Owner comp) (thr_EnableRead comp needRef)).

Definition DisableRead (this : FNET_Transport) (comp : FNET_IOComponent)
           (needRef : bool) : M unit :=
  perform (q_thread (Owner comp) (thr_DisableRead comp needRef)).

Definition EnableWrite (this : FNET_Transport) (comp : FNET_IOComponent)
           (needRef : bool) : M unit :=
  perform (q_thread (Owner comp) (thr_EnableWrite comp needRef)).

Definition DisableWrite (this : FNET_Transport) (comp : FNET_IOComponent)
           (needRef : bool) : M unit :=
  perform (q_thread (Owner comp) (thr_DisableWrite comp needRef)).

Definition Close (this : FNET_Transport) (comp : FNET_IOComponent)
           (needRef : bool) : M unit :=
  perform (q_thread (Owner comp) (thr_Close comp needRef)).

(** [_threads[0]]: outside the vector the access is undefined. *)
Definition threads_at_0 (this : FNET_Transport) : M addr :=
  match _threads this with
  | thread :: _ => ret thread
  | [] => undefined
  end.

Definition GetTimeSampler (this : FNET_Transport) : M addr :=
  assert (length (_threads this) =? 1)%nat ;;;
  thread <- threads_at_0 this ;;
  perform (q_thread thread thr_GetTimeSampler).

Definition InitEventLoop (this : FNET_Transport) : M bool :=
  assert (length (_threads this) =? 1)%nat ;;;
  thread <- threads_at_0 this ;;
  perform (q_thread thread thr_InitEventLoop).

Definition EventLoopIteration (this : FNET_Transport) : M bool :=
  assert (length (_threads this) =? 1)%nat ;;;
  thread <- threads_at_0 this ;;
  perform (q_thread thread thr_EventLoopIteration).

Definition Main (this : FNET_Transport) : M unit :=
  assert (length (_threads this) =? 1)%nat ;;;
  thread <- threads_at_0 this ;;
  perform (q_thread thread thr_Main).

End Transport.

(* ================================================================== *)
(** ** Vocabulary of the statements *)

(** The selector as the specification words it: a 64-bit hash of the key;
    a second 64-bit hash over a structure holding (a) a per-call identity
    value, (b) a timestamp, (c) the first hash; the second hash modulo [N]. *)
Section SpecSelector.

Variable hash64 : list byte -> Z.

Definition spec_first_hash (key : list byte) : Z := hash64 key.

Definition spec_structure (identity timestamp first_hash : Z) : list byte :=
  object_bytes {| self := identity; now := timestamp; key_hash := first_hash |}.

Definition spec_second_hash (identity timestamp : Z) (key : list byte) : Z :=
  hash64 (spec_structure identity timestamp (spec_first_hash key)).

Definition spec_select (identity timestamp : Z) (key : list byte) (N : nat) : Z :=
  spec_second_hash identity timestamp key mod Z.of_nat N.

End SpecSelector.

(** The 64-bit value of a call [XXH64(input, len, 0)]. *)
Definition hash64_of (XXH64 : list byte -> Z -> Z) (input : list byte) : Z :=
  u64 (XXH64 input 0).

(** The two queries that only the shard selector makes. *)
Definition is_selector_event (e : Event) : bool :=
  match e with
  | Ev q _ =>
      match q with
      | q_address_of_local => true
      | q_clock_now => true
      | _ => false
      end
  end.

(** Calls on a worker, and the worker they reach. *)
Definition event_thread (e : Event) : option addr :=
  match e with
  | Ev q _ =>
      match q with
      | q_thread thread _ => Some thread
      | _ => None
      end
  end.

Definition is_thread_event (e : Event) : bool :=
  match event_thread e with
  | Some _ => true
  | None => false
  end.

(** The events of one call of [m] on each of [threads], in order, with the
    given answers. *)
Definition calls_on {R : Type} (m : ThreadMethod R) (threads : list addr)
           (answers : list R) : list Event :=
  map (fun ta => Ev (q_thread (fst ta) m) (snd ta)) (combine threads answers).

Definition Zsum (l : list Z) : Z := fold_right Z.add 0 l.

Definition all_true (l : list bool) : bool := forallb (fun b => b) l.

(** The answers the environment gives to the selector after history [h]. *)
Definition local_address (env : Env) (h : History) : addr :=
  env addr h q_address_of_local.

Definition clock_reading (env : Env) (h : History) : Z :=
  env Z (h ++ [Ev q_address_of_local (local_address env h)]) q_clock_now.

Definition selector_events (env : Env) (h : History) : list Event :=
  [Ev q_address_of_local (local_address env h);
   Ev q_clock_now (clock_reading env h)].

(** The index [select_thread] computes, from the answers it was given. *)
Definition selected_index (XXH64 : list byte -> Z -> Z) (env : Env)
           (h : History) (this : FNET_Transport) (key : ptr) (key_len : nat)
  : nat :=
  Z.to_nat (spec_select (hash64_of XXH64) (local_address env h)
              (clock_reading env h) (mem_read key key_len)
              (length (_threads this))).

(** Two calls of the selector, one after the other, with the same key. *)
Definition select_twice (XXH64 : list byte -> Z -> Z) (this : FNET_Transport)
           (key : ptr) (key_len : nat) : M (addr * addr) :=
  first <- select_thread XXH64 this key key_len ;;
  second <- select_thread XXH64 this key key_len ;;
  ret (first, second).

(* ------------------------------------------------------------------ *)
(** *** Sample environments and pools *)

(** Default answers, by result type of the worker call. *)
Definition thread_default {R : Type} (m : ThreadMethod R) : R :=
  match m in ThreadMethod T return T with
  | thr_Listen _ _ _ => 0
  | thr_Connect _ _ _ _ _ _ => 0
  | thr_GetNumIOComponents => 0
  | thr_GetScheduler => 0
  | thr_GetTimeSampler => 0
  | thr_execute _ => true
  | thr_Start _ => true
  | thr_InitEventLoop => true
  | thr_EventLoopIteration => true
  | _ => tt
  end.

Definition resolver_default {R : Type} (m : ResolverMethod R) : R :=
  match m in ResolverMethod T return T with
  | res_wait_for_pending_resolves => tt
  | res_resolve_async _ _ => tt
  end.

(** An environment in which the local always sits at the same stack address,
    the clock advances by one tick per event, the [k]-th worker created gets
    the address [4096 * k], every worker reports [count] I/O components and
    the worker at address [failing] does not start. *)
Definition sample_env (count : Z) (failing : addr) : Env :=
  fun R h q =>
    match q in Query T return T with
    | q_address_of_local => 140737488347904
    | q_clock_now => 1700000000000000000 + Z.of_nat (length h)
    | q_new_thread _ => 4096 * (1 + Z.of_nat (length h))
    | @q_thread thread _ m =>
        match m in ThreadMethod T return T with
        | thr_GetNumIOComponents => count
        | thr_Start _ => negb (thread =? failing)
        | thr_Listen _ _ _ => thread + 1
        | thr_Connect _ _ _ _ _ _ => thread + 2
        | m' => thread_default m'
        end
    | @q_resolver _ _ m => resolver_default m
    end.

Definition pool_of (threads : list addr) : FNET_Transport :=
  {| _async_resolver := 64; _threads := threads |}.

Definition pool1 : FNET_Transport := pool_of [4096].
Definition pool2 : FNET_Transport := pool_of [4096; 8192].
Definition pool3 : FNET_Transport := pool_of [4096; 8192; 12288].
Definition pool4 : FNET_Transport := pool_of [4096; 8192; 12288; 16384].

(** The endpoint spec used in the sample runs. *)
Definition sample_spec : c_str := list_byte_of_string "tcp/127.0.0.1:0".

Definition sample_comp : FNET_IOComponent :=
  {| comp_addr := 24576; Owner := 8192 |}.

(* ------------------------------------------------------------------ *)
(** *** Further vocabulary *)

(** Reading a [HashState] back from its object representation. *)
Definition HashState_of_bytes (bs : list byte) : HashState :=
  {| self := le_decode (firstn 8 bs);
     now := le_decode (firstn 8 (skipn 8 bs));
     key_hash := le_decode (firstn 8 (skipn 16 bs)) |}.

(** The events an operation on the pool of [this] may produce: the two
    selector queries and calls on workers of the pool.  Creating a worker
    and calling the resolver are not among them. *)
Definition pool_event (this : FNET_Transport) (e : Event) : Prop :=
  match e with
  | Ev q _ =>
      match q with
      | q_address_of_local => True
      | q_clock_now => True
      | q_thread thread _ => In thread (_threads this)
      | q_new_thread _ => False
      | q_resolver _ _ => False
      end
  end.

(** [m] produces events of the class [P] only, whenever it returns. *)
Definition emits_only (P : Event -> Prop) {A : Type} (m : M A) : Prop :=
  forall (env : Env) (h : History) (a : A) (tr : list Event),
    m env h = Ok (a, tr) -> Forall P tr.

(** The life of a facade as the destructor's contract has it: construct,
    [Start], [ShutDown(true)], [WaitFinished], destroy. *)
Definition lifecycle (this_addr resolver : addr) (num_threads : nat)
           (pool : addr) : M bool :=
  this <- FNET_Transport_ctor this_addr resolver num_threads ;;
  started <- Start this pool ;;
  ShutDown this true ;;;
  WaitFinished this ;;;
  FNET_Transport_dtor this ;;;
  ret started.

(** The answers the environment gives when the workers of [threads] are
    asked [m] one after the other, starting after history [h]: each worker
    is asked after the calls on the workers before it. *)
Fixpoint thread_answers {R : Type} (env : Env) (h : History)
         (m : ThreadMethod R) (threads : list addr) : list R :=
  match threads with
  | [] => []
  | thread :: rest =>
      let answer := env R h (q_thread thread m) in
      answer :: thread_answers env (h ++ [Ev (q_thread thread m) answer]) m rest
  end.

(** The workers the environment hands out when [owner] asks for a new one
    [n] times in a row, starting after history [h]. *)
Fixpoint created_threads (env : Env) (h : History) (owner : addr) (n : nat)
  : list addr :=
  match n with
  | O => []
  | S n' =>
      let thread := env addr h (q_new_thread owner) in
      thread :: created_threads env (h ++ [Ev (q_new_thread owner) thread]) owner n'
  end.

(** The events of creating [threads] for [owner]. *)
Definition creations (owner : addr) (threads : list addr) : list Event :=
  map (fun thread => Ev (q_new_thread owner) thread) threads.

(** One answer [tt] per worker. *)
Definition acks (this : FNET_Transport) : list unit :=
  repeat tt (length (_threads this)).

(* ================================================================== *)
(** * Properties *)

(** ** The reference hash on published test vectors *)

Example XXH64_ref_empty : XXH.XXH64_ref [] 0 = 0xEF46DB3751D8E999.
Proof. vm_compute. reflexivity. Qed.

Example XXH64_ref_xxhash :
  XXH.XXH64_ref (list_byte_of_string "xxhash") 0 = 0x32DD38952C4BC720.
Proof. vm_compute. reflexivity. Qed.

Example XXH64_ref_xxhash_seeded :
  XXH.XXH64_ref (list_byte_of_string "xxhash") 20141025 = 0xB559B98D844E0635.
Proof. vm_compute. reflexivity. Qed.

Example XXH64_ref_stripe :
  XXH.XXH64_ref (list_byte_of_string "Nobody inspects the spammish repetition") 0
  = 0xFBCEA83C8A378BF1.
Proof. vm_compute. reflexivity. Qed.

(** ** Computations *)

Lemma bind_Ok {A B : Type} (m : M A) (f : A -> M B) env h a t1 b t2 :
  m env h = Ok (a, t1) ->
  f a env (h ++ t1) = Ok (b, t2) ->
  bind m f env h = Ok (b, t1 ++ t2).
Proof.
  intros Hm Hf. unfold bind. rewrite Hm, Hf. reflexivity.
Qed.

Lemma bind_AssertFail {A B : Type} (m : M A) (f : A -> M B) env h :
  m env h = AssertFail -> bind m f env h = AssertFail.
Proof.
  intros Hm. unfold bind. rewrite Hm. reflexivity.
Qed.

Lemma perform_run {R : Type} (q : Query R) env h :
  perform q env h = Ok (env R h q, [Ev q (env R h q)]).
Proof. reflexivity. Qed.

Lemma unit_answer (u : unit) : u = tt.
Proof. destruct u. reflexivity. Qed.

Lemma perform_unit (q : Query unit) env h :
  perform q env h = Ok (tt, [Ev q tt]).
Proof.
  rewrite perform_run. rewrite (unit_answer (env unit h q)). reflexivity.
Qed.

(** ** Machine arithmetic *)

Lemma u64_range x : 0 <= u64 x < 2 ^ 64.
Proof. unfold u64. apply Z.mod_pos_bound. reflexivity. Qed.

Lemma u32_range x : 0 <= u32 x < 2 ^ 32.
Proof. unfold u32. apply Z.mod_pos_bound. reflexivity. Qed.

Lemma u32_add_l x y : u32 (u32 x + y) = u32 (x + y).
Proof. unfold u32. apply Zplus_mod_idemp_l. Qed.

Lemma index_in_range (hash_value : Z) (size : nat) :
  (1 <= size)%nat ->
  (Z.to_nat (hash_value mod Z.of_nat size) < size)%nat.
Proof.
  intros Hsize.
  assert (Hb : 0 <= hash_value mod Z.of_nat size < Z.of_nat size)
    by (apply Z.mod_pos_bound; lia).
  lia.
Qed.

(** ** C strings *)

Lemma strlen_le (s : c_str) : (strlen s <= length s)%nat.
Proof.
  induction s as [|b rest IH]; simpl.
  - lia.
  - destruct (Byte.eqb b x00); lia.
Qed.

Lemma strlen_no_NUL (s : c_str) : ~ In x00 (firstn (strlen s) s).
Proof.
  induction s as [|b rest IH]; simpl.
  - intros [].
  - destruct (Byte.eqb b x00) eqn:E; simpl.
    + intros [].
    + intros [Hb | Hin].
      * subst b. discriminate E.
      * exact (IH Hin).
Qed.

Lemma strlen_terminator (s : c_str) :
  nth_error (s ++ [x00]) (strlen s) = Some x00.
Proof.
  induction s as [|b rest IH]; simpl.
  - reflexivity.
  - destruct (Byte.eqb b x00) eqn:E; simpl.
    + apply Byte.byte_dec_bl in E. subst b. reflexivity.
    + exact IH.
Qed.

Lemma strlen_prefix (p rest : list byte) :
  ~ In x00 p -> strlen (p ++ x00 :: rest) = length p.
Proof.
  induction p as [|b p IH]; simpl; intros Hp.
  - reflexivity.
  - destruct (Byte.eqb b x00) eqn:E.
    + apply Byte.byte_dec_bl in E. subst b. exfalso. apply Hp. left. reflexivity.
    + f_equal. apply IH. intros Hin. apply Hp. right. exact Hin.
Qed.

Lemma shard_key_prefix (p rest : list byte) :
  ~ In x00 p ->
  mem_read (ptr_to (p ++ x00 :: rest)) (strlen (p ++ x00 :: rest)) = p.
Proof.
  intros Hp. simpl. rewrite (strlen_prefix p rest Hp).
  rewrite firstn_app, Nat.sub_diag, firstn_all. simpl. apply app_nil_r.
Qed.

(* ================================================================== *)
(** ** The shard selector *)

Section Selector.

Variable XXH64 : list byte -> Z -> Z.

Lemma selected_index_lt env h this key key_len :
  (1 <= length (_threads this))%nat ->
  (selected_index XXH64 env h this key key_len < length (_threads this))%nat.
Proof.
  intros HN. unfold selected_index, spec_select. apply index_in_range. exact HN.
Qed.

(** A run of the selector on a non-empty pool: two queries, then the
    worker stored at the computed index. *)
Lemma select_thread_run env h this key key_len :
  (1 <= length (_threads this))%nat ->
  exists thread,
    select_thread XXH64 this key key_len env h
      = Ok (thread, selector_events env h) /\
    nth_error (_threads this) (selected_index XXH64 env h this key key_len)
      = Some thread.
Proof.
  intros HN.
  pose proof (selected_index_lt env h this key key_len HN) as Hlt.
  destruct (nth_error (_threads this) (selected_index XXH64 env h this key key_len))
    as [thread|] eqn:Hnth.
  2:{ apply nth_error_None in Hnth. lia. }
  exists thread. split; [|reflexivity].
  unfold selected_index, spec_select, spec_second_hash, spec_structure,
    spec_first_hash, hash64_of, clock_reading, local_address in Hnth.
  unfold select_thread, HashState_ctor, bind, perform, ret, selector_events,
    clock_reading, local_address.
  cbn [app].
  destruct (length (_threads this)) as [|n] eqn:Hlen; [lia|].
  rewrite Hnth. reflexivity.
Qed.

(** The selector is a function of the key bytes and of the two answers:
    runs that get the same answers select the same worker. *)
Lemma select_thread_same_salt env1 h1 env2 h2 this key key_len :
  local_address env1 h1 = local_address env2 h2 ->
  clock_reading env1 h1 = clock_reading env2 h2 ->
  select_thread XXH64 this key key_len env1 h1
  = select_thread XXH64 this key key_len env2 h2.
Proof.
  unfold clock_reading, local_address. intros Ha Hc.
  unfold select_thread, HashState_ctor, bind, perform, ret, undefined.
  cbn [app].
  rewrite <- Ha in Hc |- *. rewrite Hc.
  destruct (length (_threads this)) as [|n]; [reflexivity|].
  match goal with
  | |- context [nth_error ?l ?i] => destruct (nth_error l i)
  end; reflexivity.
Qed.

(** Only the bytes read through the key matter, not the pointer. *)
Lemma select_thread_same_key env h this key1 len1 key2 len2 :
  mem_read key1 len1 = mem_read key2 len2 ->
  select_thread XXH64 this key1 len1 env h
  = select_thread XXH64 this key2 len2 env h.
Proof.
  intros Hk. unfold select_thread, HashState_ctor, bind, perform, ret. simpl.
  rewrite Hk. reflexivity.
Qed.

(** C1.  On a pool of [N >= 1] workers, [select_thread] returns, for every
    key (pointer and length, the sentinel [(nullptr, 0)] included), the
    worker stored at an index [i] with [0 <= i < N]; when [N = 1] the
    index is [0]. *)
Theorem select_thread_in_range env h this key key_len :
  (1 <= length (_threads this))%nat ->
  exists (i : nat) (thread : addr) (tr : list Event),
    select_thread XXH64 this key key_len env h = Ok (thread, tr) /\
    (i < length (_threads this))%nat /\
    nth_error (_threads this) i = Some thread /\
    (length (_threads this) = 1%nat -> i = 0%nat).
Proof.
  intros HN.
  destruct (select_thread_run env h this key key_len HN) as [thread [Hrun Hnth]].
  pose proof (selected_index_lt env h this key key_len HN) as Hlt.
  exists (selected_index XXH64 env h this key key_len), thread, (selector_events env h).
  repeat split; try assumption.
  intros H1. lia.
Qed.

(** C2.  [select_thread] is the two-stage algorithm of the specification:
    it asks for the address of its local structure and for the clock, and
    returns the worker at index [spec_select], the second hash (over the
    structure made of that address, that timestamp and the first hash of
    the key bytes) modulo the number of workers. *)
Theorem select_thread_two_stage env h this key key_len :
  (1 <= length (_threads this))%nat ->
  let identity := local_address env h in
  let timestamp := clock_reading env h in
  let N := length (_threads this) in
  exists thread : addr,
    select_thread XXH64 this key key_len env h
      = Ok (thread, [Ev q_address_of_local identity; Ev q_clock_now timestamp]) /\
    nth_error (_threads this)
      (Z.to_nat (spec_select (hash64_of XXH64) identity timestamp
                   (mem_read key key_len) N))
      = Some thread /\
    spec_select (hash64_of XXH64) identity timestamp (mem_read key key_len) N
      = u64 (XXH64 (le_encode 8 identity ++ le_encode 8 timestamp ++
                    le_encode 8 (u64 (XXH64 (mem_read key key_len) 0))) 0)
        mod Z.of_nat N.
Proof.
  intros HN identity timestamp N.
  destruct (select_thread_run env h this key key_len HN) as [thread [Hrun Hnth]].
  exists thread. split; [exact Hrun|]. split; [exact Hnth|]. reflexivity.
Qed.

End Selector.

(** C3.  The selector is not a function of the key bytes alone: on a pool
    of four workers, with the reference hash, two consecutive calls with
    the same key (the same pointer and length) select different workers.
    Both calls find their local structure at the same address; only the
    clock readings differ. *)
Theorem select_thread_not_key_determined :
  exists (this : FNET_Transport) (key : ptr) (key_len : nat) (env : Env)
         (first second : addr) (a t1 t2 : Z),
    (1 < length (_threads this))%nat /\
    select_twice XXH.XXH64_ref this key key_len env []
      = Ok ((first, second),
            [Ev q_address_of_local a; Ev q_clock_now t1;
             Ev q_address_of_local a; Ev q_clock_now t2]) /\
    t1 <> t2 /\
    first <> second.
Proof.
  exists pool4,
         (ptr_to sample_spec), (strlen sample_spec), (sample_env 0 0),
         12288, 4096, 140737488347904,
         1700000000000000001, 1700000000000000003.
  split; [simpl; lia|].
  split; [vm_compute; reflexivity|].
  split; intros H; discriminate H.
Qed.

(* ================================================================== *)
(** ** Endpoint operations *)

Section Endpoint.

Variable XXH64 : list byte -> Z -> Z.

Lemma Listen_run env h this spec streamer serverAdapter thread sel :
  select_thread XXH64 this (ptr_to spec) (strlen spec) env h = Ok (thread, sel) ->
  let call := q_thread thread (thr_Listen spec streamer serverAdapter) in
  Listen XXH64 this spec streamer serverAdapter env h
  = Ok (env addr (h ++ sel) call, sel ++ [Ev call (env addr (h ++ sel) call)]).
Proof.
  intros Hsel call. unfold Listen.
  apply (bind_Ok _ _ env h thread sel); [exact Hsel|]. apply perform_run.
Qed.

Lemma Connect_run env h this spec streamer adminHandler adminContext
      serverAdapter connContext thread sel :
  select_thread XXH64 this (ptr_to spec) (strlen spec) env h = Ok (thread, sel) ->
  let call := q_thread thread
                (thr_Connect spec streamer adminHandler adminContext
                             serverAdapter connContext) in
  Connect XXH64 this spec streamer adminHandler adminContext serverAdapter
          connContext env h
  = Ok (env addr (h ++ sel) call, sel ++ [Ev call (env addr (h ++ sel) call)]).
Proof.
  intros Hsel call. unfold Connect.
  apply (bind_Ok _ _ env h thread sel); [exact Hsel|]. apply perform_run.
Qed.

(** C4.  [Listen] and [Connect] select a worker with the key
    [(spec, strlen spec)], whose length stops short of the terminator;
    they then make one call on that worker, with all their arguments as
    they were given, and return the worker's answer as it is (whatever it
    is, a null pointer included). *)
Theorem Listen_Connect_forward env h this spec streamer adminHandler
        adminContext serverAdapter connContext :
  (1 <= length (_threads this))%nat ->
  exists (thread : addr) (sel : list Event),
    select_thread XXH64 this (ptr_to spec) (strlen spec) env h
      = Ok (thread, sel) /\
    In thread (_threads this) /\
    mem_read (ptr_to spec) (strlen spec) = firstn (strlen spec) spec /\
    ~ In x00 (firstn (strlen spec) spec) /\
    nth_error (spec ++ [x00]) (strlen spec) = Some x00 /\
    (forall answer : addr,
        env addr (h ++ sel)
            (q_thread thread (thr_Listen spec streamer serverAdapter)) = answer ->
        Listen XXH64 this spec streamer serverAdapter env h
        = Ok (answer,
              sel ++ [Ev (q_thread thread
                            (thr_Listen spec streamer serverAdapter)) answer])) /\
    (forall answer : addr,
        env addr (h ++ sel)
            (q_thread thread
               (thr_Connect spec streamer adminHandler adminContext
                            serverAdapter connContext)) = answer ->
        Connect XXH64 this spec streamer adminHandler adminContext
                serverAdapter connContext env h
        = Ok (answer,
              sel ++ [Ev (q_thread thread
                            (thr_Connect spec streamer adminHandler adminContext
                                         serverAdapter connContext)) answer])).
Proof.
  intros HN.
  destruct (select_thread_run XXH64 env h this (ptr_to spec) (strlen spec) HN)
    as [thread [Hrun Hnth]].
  exists thread, (selector_events env h).
  split; [exact Hrun|].
  split; [exact (nth_error_In _ _ Hnth)|].
  split; [reflexivity|].
  split; [apply strlen_no_NUL|].
  split; [apply strlen_terminator|].
  split; intros answer <-.
  - exact (Listen_run env h this spec streamer serverAdapter _ _ Hrun).
  - exact (Connect_run env h this spec streamer adminHandler adminContext
                       serverAdapter connContext _ _ Hrun).
Qed.

(** C10.  The shard key of [Listen] and [Connect] is the part of the spec
    before its first NUL byte.  Two specs [p ++ NUL :: rest1] and
    [p ++ NUL :: rest2] give the same key bytes [p], hence the same
    worker in the same circumstances, while each call hands its whole
    spec to that worker. *)
Theorem shard_key_stops_at_NUL env h this p rest1 rest2 streamer adminHandler
        adminContext serverAdapter connContext :
  (1 <= length (_threads this))%nat ->
  ~ In x00 p ->
  let spec1 := p ++ x00 :: rest1 in
  let spec2 := p ++ x00 :: rest2 in
  mem_read (ptr_to spec1) (strlen spec1) = p /\
  mem_read (ptr_to spec2) (strlen spec2) = p /\
  exists (thread : addr) (sel : list Event),
    select_thread XXH64 this (ptr_to spec1) (strlen spec1) env h
      = Ok (thread, sel) /\
    select_thread XXH64 this (ptr_to spec2) (strlen spec2) env h
      = Ok (thread, sel) /\
    (exists a1 a2 : addr,
        Listen XXH64 this spec1 streamer serverAdapter env h
        = Ok (a1, sel ++ [Ev (q_thread thread
                                (thr_Listen spec1 streamer serverAdapter)) a1]) /\
        Listen XXH64 this spec2 streamer serverAdapter env h
        = Ok (a2, sel ++ [Ev (q_thread thread
                                (thr_Listen spec2 streamer serverAdapter)) a2])) /\
    (exists a1 a2 : addr,
        Connect XXH64 this spec1 streamer adminHandler adminContext
                serverAdapter connContext env h
        = Ok (a1, sel ++ [Ev (q_thread thread
                                (thr_Connect spec1 streamer adminHandler
                                   adminContext serverAdapter connContext)) a1]) /\
        Connect XXH64 this spec2 streamer adminHandler adminContext
                serverAdapter connContext env h
        = Ok (a2, sel ++ [Ev (q_thread thread
                                (thr_Connect spec2 streamer adminHandler
                                   adminContext serverAdapter connContext)) a2])).
Proof.
  intros HN Hp spec1 spec2.
  pose proof (shard_key_prefix p rest1 Hp) as Hk1.
  pose proof (shard_key_prefix p rest2 Hp) as Hk2.
  fold spec1 in Hk1. fold spec2 in Hk2.
  split; [exact Hk1|]. split; [exact Hk2|].
  destruct (select_thread_run XXH64 env h this (ptr_to spec1) (strlen spec1) HN)
    as [thread [Hrun1 _]].
  assert (Hrun2 : select_thread XXH64 this (ptr_to spec2) (strlen spec2) env h
                  = Ok (thread, selector_events env h)).
  { rewrite <- Hrun1. apply select_thread_same_key. congruence. }
  exists thread, (selector_events env h).
  split; [exact Hrun1|]. split; [exact Hrun2|].
  split; eexists; eexists; split.
  - exact (Listen_run env h this spec1 streamer serverAdapter _ _ Hrun1).
  - exact (Listen_run env h this spec2 streamer serverAdapter _ _ Hrun2).
  - exact (Connect_run env h this spec1 streamer adminHandler adminContext
                       serverAdapter connContext _ _ Hrun1).
  - exact (Connect_run env h this spec2 streamer adminHandler adminContext
                       serverAdapter connContext _ _ Hrun2).
Qed.

End Endpoint.

(* ================================================================== *)
(** ** I/O component router *)

(** C5.  [Add], [EnableRead], [DisableRead], [EnableWrite], [DisableWrite]
    and [Close] each make exactly one call: the operation of the same name,
    on the worker [Owner comp], with the component and [needRef] as given.
    No selector query is made, and the pool of the facade plays no part. *)
Theorem router_reaches_owner (env : Env) (h : History) (this : FNET_Transport)
        (comp : FNET_IOComponent) (needRef : bool) :
  let run (op : FNET_Transport -> FNET_IOComponent -> bool -> M unit)
          (method : FNET_IOComponent -> bool -> ThreadMethod unit) :=
    exists tr : list Event,
      op this comp needRef env h = Ok (tt, tr) /\
      tr = [Ev (q_thread (Owner comp) (method comp needRef)) tt] /\
      map event_thread tr = [Some (Owner comp)] /\
      existsb is_selector_event tr = false /\
      (forall other : FNET_Transport,
          op other comp needRef env h = op this comp needRef env h) in
  run Add thr_Add /\
  run EnableRead thr_EnableRead /\
  run DisableRead thr_DisableRead /\
  run EnableWrite thr_EnableWrite /\
  run DisableWrite thr_DisableWrite /\
  run Close thr_Close.
Proof.
  cbv zeta.
  repeat split;
    (eexists; split; [apply perform_unit|];
     split; [reflexivity|]; split; [reflexivity|]; split; reflexivity).
Qed.

(* ================================================================== *)
(** ** Broadcast operations *)

Lemma calls_on_cons {R : Type} (m : ThreadMethod R) thread threads a answers :
  calls_on m (thread :: threads) (a :: answers)
  = Ev (q_thread thread m) a :: calls_on m threads answers.
Proof. reflexivity. Qed.

Lemma calls_on_threads {R : Type} (m : ThreadMethod R) threads answers :
  length answers = length threads ->
  map event_thread (calls_on m threads answers) = map Some threads.
Proof.
  revert answers.
  induction threads as [|t threads IH]; intros [|a answers] Hlen;
    simpl in Hlen; try discriminate; [reflexivity|].
  rewrite calls_on_cons. simpl. f_equal. apply IH. lia.
Qed.

Lemma Start_loop_run threads pool :
  forall (result : bool) (env : Env) (h : History),
  exists started : list bool,
    length started = length threads /\
    Start_loop threads pool result env h
    = Ok (result && all_true started, calls_on (thr_Start pool) threads started).
Proof.
  induction threads as [|thread rest IH]; intros result env h.
  - exists []. split; [reflexivity|].
    simpl. unfold ret. rewrite andb_true_r. reflexivity.
  - set (s := env bool h (q_thread thread (thr_Start pool))).
    destruct (IH (result && s)%bool env (h ++ [Ev (q_thread thread (thr_Start pool)) s]))
      as [started [Hlen Hrun]].
    exists (s :: started). split; [simpl; lia|].
    simpl Start_loop.
    rewrite (bind_Ok _ _ env h s [Ev (q_thread thread (thr_Start pool)) s] _ _
               (perform_run _ env h) Hrun).
    rewrite calls_on_cons. simpl. rewrite andb_assoc. reflexivity.
  Qed.

(** The answers of the environment, one by one. *)
Lemma thread_answers_length {R : Type} (m : ThreadMethod R) env threads :
  forall h, length (thread_answers env h m threads) = length threads.
Proof.
  induction threads as [|t rest IH]; intros h; simpl; [reflexivity|].
  rewrite IH. reflexivity.
Qed.

Lemma thread_answers_nth {R : Type} (m : ThreadMethod R) env threads :
  forall h i thread,
    nth_error threads i = Some thread ->
    nth_error (thread_answers env h m threads) i
    = Some (env R (h ++ calls_on m (firstn i threads)
                                 (firstn i (thread_answers env h m threads)))
                (q_thread thread m)).
Proof.
  induction threads as [|t rest IH]; intros h [|i] thread Hnth;
    simpl in Hnth; try discriminate Hnth.
  - injection Hnth as ->. simpl. rewrite app_nil_r. reflexivity.
  - simpl thread_answers. simpl nth_error. simpl firstn.
    rewrite calls_on_cons.
    rewrite (IH _ i thread Hnth). rewrite <- app_assoc. reflexivity.
Qed.

Lemma Start_loop_answers threads pool :
  forall (result : bool) (env : Env) (h : History),
    Start_loop threads pool result env h
    = Ok (result && all_true (thread_answers env h (thr_Start pool) threads),
          calls_on (thr_Start pool) threads
                   (thread_answers env h (thr_Start pool) threads)).
Proof.
  induction threads as [|thread rest IH]; intros result env h.
  - simpl. unfold ret. rewrite andb_true_r. reflexivity.
  - simpl Start_loop. simpl thread_answers. rewrite calls_on_cons.
    set (s := env bool h (q_thread thread (thr_Start pool))).
    rewrite (bind_Ok _ _ env h s [Ev (q_thread thread (thr_Start pool)) s] _ _
               (perform_run _ env h) (IH (result && s)%bool env _)).
    simpl. rewrite andb_assoc. reflexivity.
Qed.

(** C6.  [Start pool] calls [Start pool] on every worker of the pool, once
    each and in order, whatever the earlier calls answered, and returns the
    conjunction of the answers the workers gave: [true] exactly when every
    worker started.  The answer of the worker at index [i] is what the
    environment answers to that call after the calls on the workers before
    it. *)
Theorem Start_all_and (env : Env) (h : History) (this : FNET_Transport)
        (pool : addr) :
  let started := thread_answers env h (thr_Start pool) (_threads this) in
  length started = length (_threads this) /\
  (forall (i : nat) (thread : addr),
      nth_error (_threads this) i = Some thread ->
      nth_error started i
      = Some (env bool
                  (h ++ calls_on (thr_Start pool) (firstn i (_threads this))
                                 (firstn i started))
                  (q_thread thread (thr_Start pool)))) /\
  Start this pool env h
  = Ok (all_true started, calls_on (thr_Start pool) (_threads this) started) /\
  map event_thread (calls_on (thr_Start pool) (_threads this) started)
  = map Some (_threads this) /\
  (all_true started = true <-> (forall b, In b started -> b = true)).
Proof.
  intros started.
  assert (Hlen : length started = length (_threads this))
    by apply thread_answers_length.
  split; [exact Hlen|].
  split; [apply thread_answers_nth|].
  split; [apply (Start_loop_answers (_threads this) pool true env h)|].
  split; [apply calls_on_threads; exact Hlen|].
  unfold all_true. rewrite forallb_forall. reflexivity.
Qed.

(** The partial start failure of the specification: three workers, the
    second does not start; all three are asked, the facade returns [false]. *)
Example Start_partial_failure :
  Start pool3 7 (sample_env 0 8192) []
  = Ok (false, [Ev (q_thread 4096 (thr_Start 7)) true;
                Ev (q_thread 8192 (thr_Start 7)) false;
                Ev (q_thread 12288 (thr_Start 7)) true]).
Proof. vm_compute. reflexivity. Qed.

Lemma GetNumIOComponents_loop_run threads :
  forall (result : Z) (env : Env) (h : History),
  exists counts : list Z,
    length counts = length threads /\
    GetNumIOComponents_loop threads result env h
    = Ok (match threads with
          | [] => result
          | _ => u32 (result + Zsum counts)
          end,
          calls_on thr_GetNumIOComponents threads counts).
Proof.
  induction threads as [|thread rest IH]; intros result env h.
  - exists []. split; reflexivity.
  - set (n := env Z h (q_thread thread thr_GetNumIOComponents)).
    destruct (IH (u32 (result + n))
                 env (h ++ [Ev (q_thread thread thr_GetNumIOComponents) n]))
      as [counts [Hlen Hrun]].
    exists (n :: counts). split; [simpl; lia|].
    simpl GetNumIOComponents_loop.
    rewrite (bind_Ok _ _ env h n [Ev (q_thread thread thr_GetNumIOComponents) n]
               _ _ (perform_run _ env h) Hrun).
    rewrite calls_on_cons. simpl app. f_equal. f_equal.
    destruct rest as [|t' rest'].
    + destruct counts; [|discriminate Hlen]. simpl. f_equal. lia.
    + rewrite u32_add_l. simpl Zsum. f_equal. lia.
Qed.

Lemma GetNumIOComponents_loop_answers threads :
  forall (result : Z) (env : Env) (h : History),
    GetNumIOComponents_loop threads result env h
    = Ok (match threads with
          | [] => result
          | _ => u32 (result + Zsum (thread_answers env h thr_GetNumIOComponents
                                                    threads))
          end,
          calls_on thr_GetNumIOComponents threads
                   (thread_answers env h thr_GetNumIOComponents threads)).
Proof.
  induction threads as [|thread rest IH]; intros result env h.
  - reflexivity.
  - simpl GetNumIOComponents_loop. simpl thread_answers. rewrite calls_on_cons.
    set (n := env Z h (q_thread thread thr_GetNumIOComponents)).
    rewrite (bind_Ok _ _ env h n [Ev (q_thread thread thr_GetNumIOComponents) n]
               _ _ (perform_run _ env h) (IH (u32 (result + n)) env _)).
    simpl app. f_equal. f_equal.
    destruct rest as [|t' rest'].
    + simpl. f_equal. lia.
    + rewrite u32_add_l. simpl Zsum. f_equal. lia.
Qed.

Lemma GetNumIOComponents_answers (env : Env) (h : History)
      (this : FNET_Transport) :
  GetNumIOComponents this env h
  = Ok (u32 (Zsum (thread_answers env h thr_GetNumIOComponents (_threads this))),
        calls_on thr_GetNumIOComponents (_threads this)
                 (thread_answers env h thr_GetNumIOComponents (_threads this))).
Proof.
  unfold GetNumIOComponents. rewrite GetNumIOComponents_loop_answers.
  destruct (_threads this); reflexivity.
Qed.

Lemma u32_exact (x : Z) : u32 x = x <-> 0 <= x < 2 ^ 32.
Proof.
  unfold u32. split.
  - intros <-. apply Z.mod_pos_bound. reflexivity.
  - apply Z.mod_small.
Qed.

(** C8 (as the code has it).  [GetNumIOComponents] asks every worker of the
    pool for its count, once each and in order, and returns the sum of the
    counts the workers gave in [uint32_t] arithmetic, that is modulo [2^32];
    the value returned is the exact sum whenever that sum is below [2^32]
    (and only then).  The count of the worker at index [i] is what the
    environment answers to that call after the calls on the workers before
    it. *)
Theorem GetNumIOComponents_sum_mod (env : Env) (h : History)
        (this : FNET_Transport) :
  let counts := thread_answers env h thr_GetNumIOComponents (_threads this) in
  length counts = length (_threads this) /\
  (forall (i : nat) (thread : addr),
      nth_error (_threads this) i = Some thread ->
      nth_error counts i
      = Some (env Z
                  (h ++ calls_on thr_GetNumIOComponents (firstn i (_threads this))
                                 (firstn i counts))
                  (q_thread thread thr_GetNumIOComponents))) /\
  GetNumIOComponents this env h
  = Ok (u32 (Zsum counts),
        calls_on thr_GetNumIOComponents (_threads this) counts) /\
  map event_thread (calls_on thr_GetNumIOComponents (_threads this) counts)
  = map Some (_threads this) /\
  (u32 (Zsum counts) = Zsum counts <-> 0 <= Zsum counts < 2 ^ 32).
Proof.
  intros counts.
  assert (Hlen : length counts = length (_threads this))
    by apply thread_answers_length.
  split; [exact Hlen|].
  split; [apply thread_answers_nth|].
  split; [apply GetNumIOComponents_answers|].
  split; [apply calls_on_threads; exact Hlen|].
  apply u32_exact.
Qed.

(** When the counts are [uint32_t] values whose sum fits in 32 bits, the
    value returned is their sum. *)
Lemma GetNumIOComponents_exact (counts : list Z) :
  Forall (fun n => 0 <= n) counts ->
  Zsum counts < 2 ^ 32 ->
  u32 (Zsum counts) = Zsum counts.
Proof.
  intros Hpos Hlt. unfold u32. apply Z.mod_small. split; [|exact Hlt].
  induction Hpos as [|n l Hn _ IH]; simpl in *; lia.
Qed.

(** C8 (as the claim has it) fails: with two workers that hold [2^31] I/O
    components each, the facade returns [0], not [2^32]. *)
Lemma GetNumIOComponents_sum_wraps :
  let this := pool2 in
  let env := sample_env (2 ^ 31) 0 in
  let counts := [2 ^ 31; 2 ^ 31] in
  GetNumIOComponents this env []
  = Ok (0, calls_on thr_GetNumIOComponents (_threads this) counts) /\
  Forall (fun n => 0 <= n < 2 ^ 32) counts /\
  Zsum counts = 2 ^ 32 /\
  0 <> Zsum counts.
Proof.
  cbv zeta. split; [vm_compute; reflexivity|].
  split; [repeat constructor; vm_compute; congruence|].
  split; [reflexivity|]. vm_compute. discriminate.
Qed.

(* ================================================================== *)
(** ** Construction, destruction and the single-thread mode *)

Lemma new_threads_run (owner : addr) (num_threads : nat) :
  forall (env : Env) (h : History),
  exists (threads : list addr) (tr : list Event),
    new_threads owner num_threads env h = Ok (threads, tr) /\
    length threads = num_threads /\
    tr = map (fun thread => Ev (q_new_thread owner) thread) threads.
Proof.
  induction num_threads as [|n IH]; intros env h.
  - exists [], []. repeat split.
  - set (t := env addr h (q_new_thread owner)).
    destruct (IH env (h ++ [Ev (q_new_thread owner) t])) as [threads [tr [Hrun [Hlen Htr]]]].
    exists (t :: threads), (Ev (q_new_thread owner) t :: tr).
    split; [|split; [simpl; lia | simpl; f_equal; exact Htr]].
    simpl new_threads.
    apply (bind_Ok _ _ env h t [Ev (q_new_thread owner) t]); [apply perform_run|].
    rewrite <- (app_nil_r tr).
    apply (bind_Ok _ _ env _ threads tr); [exact Hrun|]. reflexivity.
Qed.

Lemma single_thread_fail {R : Type} (this : FNET_Transport)
      (k : unit -> M R) env h :
  length (_threads this) <> 1%nat ->
  bind (assert (length (_threads this) =? 1)%nat) k env h = AssertFail.
Proof.
  intros Hne. apply bind_AssertFail. unfold assert.
  destruct (Nat.eqb_spec (length (_threads this)) 1); [contradiction|reflexivity].
Qed.

Lemma single_thread_run {R : Type} (this : FNET_Transport) (thread : addr)
      (m : ThreadMethod R) env h :
  _threads this = [thread] ->
  bind (assert (length (_threads this) =? 1)%nat)
       (fun _ => bind (threads_at_0 this)
                      (fun thread => perform (q_thread thread m))) env h
  = Ok (env R h (q_thread thread m),
        [Ev (q_thread thread m) (env R h (q_thread thread m))]).
Proof.
  intros Hthreads. unfold bind, assert, threads_at_0, perform, ret.
  rewrite Hthreads. simpl. rewrite !app_nil_r. reflexivity.
Qed.

(** C7.  The constructor fails its assertion when [num_threads < 1] and
    succeeds, with [num_threads] new workers, when [num_threads >= 1].
    [GetTimeSampler], [InitEventLoop], [EventLoopIteration] and [Main] fail
    their assertion on a facade whose pool does not hold exactly one worker
    (so whenever [N > 1]); on a pool of one worker none of them fails: each
    makes its one call on that worker and returns the answer. *)
Theorem assertions_guard_thread_count (env : Env) (h : History)
        (this_addr resolver : addr) (num_threads : nat) (this : FNET_Transport) :
  ((num_threads < 1)%nat ->
   FNET_Transport_ctor this_addr resolver num_threads env h = AssertFail) /\
  ((1 <= num_threads)%nat ->
   exists (new : FNET_Transport) (tr : list Event),
     FNET_Transport_ctor this_addr resolver num_threads env h = Ok (new, tr) /\
     length (_threads new) = num_threads /\
     _async_resolver new = resolver /\
     tr = map (fun thread => Ev (q_new_thread this_addr) thread) (_threads new)) /\
  ((1 < length (_threads this))%nat ->
   GetTimeSampler this env h = AssertFail /\
   InitEventLoop this env h = AssertFail /\
   EventLoopIteration this env h = AssertFail /\
   Main this env h = AssertFail) /\
  (length (_threads this) = 1%nat ->
   exists thread : addr,
     _threads this = [thread] /\
     GetTimeSampler this env h
     = Ok (env addr h (q_thread thread thr_GetTimeSampler),
           [Ev (q_thread thread thr_GetTimeSampler)
               (env addr h (q_thread thread thr_GetTimeSampler))]) /\
     InitEventLoop this env h
     = Ok (env bool h (q_thread thread thr_InitEventLoop),
           [Ev (q_thread thread thr_InitEventLoop)
               (env bool h (q_thread thread thr_InitEventLoop))]) /\
     EventLoopIteration this env h
     = Ok (env bool h (q_thread thread thr_EventLoopIteration),
           [Ev (q_thread thread thr_EventLoopIteration)
               (env bool h (q_thread thread thr_EventLoopIteration))]) /\
     Main this env h = Ok (tt, [Ev (q_thread thread thr_Main) tt])).
Proof.
  split; [|split; [|split]].
  - intros Hlt. unfold FNET_Transport_ctor. apply bind_AssertFail.
    unfold assert. destruct (Nat.leb_spec 1 num_threads); [lia|reflexivity].
  - intros Hge.
    destruct (new_threads_run this_addr num_threads env (h ++ []))
      as [threads [tr [Hrun [Hlen Htr]]]].
    exists {| _async_resolver := resolver; _threads := threads |}, tr.
    split; [|split; [exact Hlen|split; [reflexivity|exact Htr]]].
    unfold FNET_Transport_ctor, bind, assert.
    destruct (Nat.leb_spec 1 num_threads); [|lia].
    simpl. rewrite Hrun. unfold ret. rewrite app_nil_r. reflexivity.
  - intros Hgt.
    assert (Hne : length (_threads this) <> 1%nat) by lia.
    repeat split; apply single_thread_fail; exact Hne.
  - intros H1.
    destruct (_threads this) as [|thread [|t' rest]] eqn:Hthreads;
      try discriminate H1.
    exists thread. split; [reflexivity|].
    split; [exact (single_thread_run this thread _ env h Hthreads)|].
    split; [exact (single_thread_run this thread _ env h Hthreads)|].
    split; [exact (single_thread_run this thread _ env h Hthreads)|].
    unfold Main. rewrite (single_thread_run this thread _ env h Hthreads).
    rewrite (unit_answer (env unit h (q_thread thread thr_Main))). reflexivity.
Qed.

(** C9.  The destructor makes exactly one call, [wait_for_pending_resolves]
    on the resolver; it makes no call on any worker, so neither [ShutDown]
    nor [WaitFinished]. *)
Theorem destructor_only_drains_resolver (env : Env) (h : History)
        (this : FNET_Transport) :
  exists tr : list Event,
    FNET_Transport_dtor this env h = Ok (tt, tr) /\
    tr = [Ev (q_resolver (_async_resolver this) res_wait_for_pending_resolves) tt] /\
    existsb is_thread_event tr = false /\
    (forall (thread : addr) (waitFinished : bool) (u : unit),
        ~ In (Ev (q_thread thread (thr_ShutDown waitFinished)) u) tr /\
        ~ In (Ev (q_thread thread thr_WaitFinished) u) tr).
Proof.
  eexists. split; [apply perform_unit|]. split; [reflexivity|].
  split; [reflexivity|].
  intros thread waitFinished u. split; intros [Heq | []]; discriminate Heq.
Qed.

(* ================================================================== *)
(** ** The theorems at sample inputs *)

(** [select_thread_in_range] for the sentinel key on a pool of three. *)
Lemma select_thread_in_range_witness :
  let this := pool3 in
  (1 <= length (_threads this))%nat /\
  exists (i : nat) (thread : addr) (tr : list Event),
    select_thread XXH.XXH64_ref this nullptr 0 (sample_env 0 0) []
      = Ok (thread, tr) /\
    (i < length (_threads this))%nat /\
    nth_error (_threads this) i = Some thread /\
    (length (_threads this) = 1%nat -> i = 0%nat).
Proof.
  cbv zeta. split.
  - simpl. lia.
  - apply (select_thread_in_range XXH.XXH64_ref (sample_env 0 0) []
             pool3 nullptr 0).
    simpl. lia.
Defined.

(** [select_thread_two_stage] for the sample spec on a pool of four. *)
Lemma select_thread_two_stage_witness :
  let this := pool4 in
  let env := sample_env 0 0 in
  (1 <= length (_threads this))%nat /\
  exists thread : addr,
    select_thread XXH.XXH64_ref this (ptr_to sample_spec) (strlen sample_spec)
                  env []
      = Ok (thread, [Ev q_address_of_local (local_address env []);
                     Ev q_clock_now (clock_reading env [])]) /\
    nth_error (_threads this)
      (Z.to_nat (spec_select (hash64_of XXH.XXH64_ref) (local_address env [])
                   (clock_reading env [])
                   (mem_read (ptr_to sample_spec) (strlen sample_spec)) 4))
      = Some thread.
Proof.
  cbv zeta. split.
  - simpl. lia.
  - destruct (select_thread_two_stage XXH.XXH64_ref (sample_env 0 0) []
                pool4
                (ptr_to sample_spec) (strlen sample_spec))
      as [thread [Hrun [Hnth _]]].
    + simpl. lia.
    + exists thread. split; [exact Hrun | exact Hnth].
Defined.

(** [Listen_Connect_forward] for the sample spec on a pool of four. *)
Lemma Listen_Connect_forward_witness :
  let this := pool4 in
  let env := sample_env 0 0 in
  (1 <= length (_threads this))%nat /\
  exists (thread : addr) (sel : list Event),
    select_thread XXH.XXH64_ref this (ptr_to sample_spec) (strlen sample_spec)
                  env [] = Ok (thread, sel) /\
    In thread (_threads this) /\
    Listen XXH.XXH64_ref this sample_spec 1 2 env []
    = Ok (thread + 1,
          sel ++ [Ev (q_thread thread (thr_Listen sample_spec 1 2)) (thread + 1)]) /\
    Connect XXH.XXH64_ref this sample_spec 1 3 4 2 5 env []
    = Ok (thread + 2,
          sel ++ [Ev (q_thread thread (thr_Connect sample_spec 1 3 4 2 5))
                     (thread + 2)]).
Proof.
  cbv zeta. split.
  - simpl. lia.
  - destruct (Listen_Connect_forward XXH.XXH64_ref (sample_env 0 0) []
                pool4 sample_spec 1 3 4 2 5)
      as [thread [sel [Hsel [Hin [_ [_ [_ [HL HC]]]]]]]].
    + simpl. lia.
    + exists thread, sel. split; [exact Hsel|]. split; [exact Hin|].
      split; [apply HL | apply HC]; reflexivity.
Defined.

(** [shard_key_stops_at_NUL] for two specs that agree up to a NUL byte. *)
Lemma shard_key_stops_at_NUL_witness :
  let this := pool4 in
  let env := sample_env 0 0 in
  let spec1 := sample_spec ++ x00 :: list_byte_of_string "/a" in
  let spec2 := sample_spec ++ x00 :: list_byte_of_string "/bc" in
  (1 <= length (_threads this))%nat /\
  ~ In x00 sample_spec /\
  mem_read (ptr_to spec1) (strlen spec1) = sample_spec /\
  mem_read (ptr_to spec2) (strlen spec2) = sample_spec /\
  exists (thread : addr) (sel : list Event) (a1 a2 : addr),
    Listen XXH.XXH64_ref this spec1 1 2 env []
    = Ok (a1, sel ++ [Ev (q_thread thread (thr_Listen spec1 1 2)) a1]) /\
    Listen XXH.XXH64_ref this spec2 1 2 env []
    = Ok (a2, sel ++ [Ev (q_thread thread (thr_Listen spec2 1 2)) a2]).
Proof.
  cbv zeta.
  assert (HN : (1 <= length (_threads pool4))%nat)
    by (simpl; lia).
  assert (Hp : ~ In x00 sample_spec).
  { vm_compute. intros H.
    repeat (destruct H as [H | H]; [discriminate H|]). exact H. }
  destruct (shard_key_stops_at_NUL XXH.XXH64_ref (sample_env 0 0) []
              pool4 sample_spec
              (list_byte_of_string "/a") (list_byte_of_string "/bc")
              1 3 4 2 5 HN Hp)
    as [Hk1 [Hk2 [thread [sel [_ [_ [[a1 [a2 [HL1 HL2]]] _]]]]]]].
  split; [exact HN|]. split; [exact Hp|].
  split; [exact Hk1|]. split; [exact Hk2|].
  exists thread, sel, a1, a2. split; [exact HL1 | exact HL2].
Defined.

(** [assertions_guard_thread_count]: construction with no thread and with
    three; the single-thread operations on pools of two workers and of one. *)
Lemma assertions_guard_thread_count_witness :
  let env := sample_env 0 0 in
  FNET_Transport_ctor 512 64 0 env [] = AssertFail /\
  (exists (new : FNET_Transport) (tr : list Event),
      FNET_Transport_ctor 512 64 3 env [] = Ok (new, tr) /\
      length (_threads new) = 3%nat) /\
  Main pool2 env [] = AssertFail /\
  InitEventLoop pool2 env [] = AssertFail /\
  Main pool1 env [] = Ok (tt, [Ev (q_thread 4096 thr_Main) tt]).
Proof.
  cbv zeta.
  destruct (assertions_guard_thread_count (sample_env 0 0) [] 512 64 0
              pool2) as [Hctor0 [_ [Hmany _]]].
  destruct (assertions_guard_thread_count (sample_env 0 0) [] 512 64 3
              pool1) as [_ [Hctor3 [_ Hone]]].
  split; [apply Hctor0; lia|].
  split.
  - destruct Hctor3 as [new [tr [Hrun [Hlen _]]]]; [lia|].
    exists new, tr. split; [exact Hrun | exact Hlen].
  - destruct Hmany as [_ [Hinit [_ Hmain]]]; [simpl; lia|].
    split; [exact Hmain|]. split; [exact Hinit|].
    destruct Hone as [thread [Hthreads [_ [_ [_ Hmain1]]]]]; [reflexivity|].
    simpl in Hthreads. injection Hthreads as <-. exact Hmain1.
Defined.

(* ================================================================== *)
(** ** Broadcast of settings and of the drain and stop operations *)

Lemma for_each_perform_run (m : ThreadMethod unit) (threads : list addr) :
  forall (env : Env) (h : History),
    for_each (fun thread => perform (q_thread thread m)) threads env h
    = Ok (tt, calls_on m threads (repeat tt (length threads))).
Proof.
  induction threads as [|thread rest IH]; intros env h.
  - reflexivity.
  - simpl for_each. simpl length. simpl repeat. rewrite calls_on_cons.
    apply (bind_Ok _ _ env h tt [Ev (q_thread thread m) tt]).
    + apply perform_unit.
    + apply IH.
Qed.

Lemma calls_on_length {R : Type} (m : ThreadMethod R) threads answers :
  length answers = length threads ->
  length (calls_on m threads answers) = length threads.
Proof.
  intros Hlen. unfold calls_on. rewrite length_map, length_combine. lia.
Qed.

Lemma broadcast_run (m : ThreadMethod unit) (this : FNET_Transport) env h :
  exists tr : list Event,
    for_each (fun thread => perform (q_thread thread m)) (_threads this) env h
    = Ok (tt, tr) /\
    tr = calls_on m (_threads this) (acks this) /\
    map event_thread tr = map Some (_threads this) /\
    length tr = length (_threads this).
Proof.
  exists (calls_on m (_threads this) (acks this)).
  split; [apply for_each_perform_run|]. split; [reflexivity|].
  split; [apply calls_on_threads | apply calls_on_length];
    unfold acks; apply repeat_length.
Qed.

(** The six tuning setters each call the setter of the same name once on
    every worker of the pool, in index order, with the value they were
    given; they make no other call and always return. *)
Theorem tuning_setters_broadcast (env : Env) (h : History)
        (this : FNET_Transport) (ms bytes : Z) (flag : bool) :
  let reaches_all (op : M unit) (method : ThreadMethod unit) :=
    exists tr : list Event,
      op env h = Ok (tt, tr) /\
      tr = calls_on method (_threads this) (acks this) /\
      map event_thread tr = map Some (_threads this) /\
      length tr = length (_threads this) in
  reaches_all (SetIOCTimeOut this ms) (thr_SetIOCTimeOut ms) /\
  reaches_all (SetMaxInputBufferSize this bytes) (thr_SetMaxInputBufferSize bytes) /\
  reaches_all (SetMaxOutputBufferSize this bytes) (thr_SetMaxOutputBufferSize bytes) /\
  reaches_all (SetDirectWrite this flag) (thr_SetDirectWrite flag) /\
  reaches_all (SetTCPNoDelay this flag) (thr_SetTCPNoDelay flag) /\
  reaches_all (SetLogStats this flag) (thr_SetLogStats flag).
Proof.
  cbv zeta. repeat split; apply broadcast_run.
Qed.

(** [sync], [ShutDown(waitFinished)] and [WaitFinished] each make the call
    of the same name once on every worker of the pool, in index order
    ([ShutDown] with the flag it was given), and nothing else. *)
Theorem drain_and_stop_broadcast (env : Env) (h : History)
        (this : FNET_Transport) (waitFinished : bool) :
  let reaches_all (op : M unit) (method : ThreadMethod unit) :=
    exists tr : list Event,
      op env h = Ok (tt, tr) /\
      tr = calls_on method (_threads this) (acks this) /\
      map event_thread tr = map Some (_threads this) /\
      length tr = length (_threads this) in
  reaches_all (sync this) thr_sync /\
  reaches_all (ShutDown this waitFinished) (thr_ShutDown waitFinished) /\
  reaches_all (WaitFinished this) thr_WaitFinished.
Proof.
  cbv zeta. repeat split; apply broadcast_run.
Qed.

(* ================================================================== *)
(** ** Dispatch of work that has no endpoint *)

Section Dispatch.

Variable XXH64 : list byte -> Z -> Z.

Lemma dispatch_run {R : Type} (m : ThreadMethod R) env h this key key_len
      thread sel :
  select_thread XXH64 this key key_len env h = Ok (thread, sel) ->
  bind (select_thread XXH64 this key key_len)
       (fun thread => perform (q_thread thread m)) env h
  = Ok (env R (h ++ sel) (q_thread thread m),
        sel ++ [Ev (q_thread thread m) (env R (h ++ sel) (q_thread thread m))]).
Proof.
  intros Hsel.
  apply (bind_Ok _ _ env h thread sel); [exact Hsel|]. apply perform_run.
Qed.

Lemma select_thread_empty_pool env h this key key_len :
  _threads this = [] ->
  select_thread XXH64 this key key_len env h = Undefined.
Proof.
  intros Hempty. unfold select_thread, HashState_ctor, bind, perform, ret.
  rewrite Hempty. reflexivity.
Qed.

Lemma dispatch_empty_pool {R : Type} (k : addr -> M R) env h this key key_len :
  _threads this = [] ->
  bind (select_thread XXH64 this key key_len) k env h = Undefined.
Proof.
  intros Hempty. unfold bind.
  rewrite (select_thread_empty_pool env h this key key_len Hempty). reflexivity.
Qed.

Lemma nonempty_pool (this : FNET_Transport) :
  _threads this <> [] -> (1 <= length (_threads this))%nat.
Proof.
  destruct (_threads this); [congruence | simpl; lia].
Qed.

(** [GetScheduler] and [execute] select a worker of the pool with the
    sentinel key, make their one call on it and return its answer as it is:
    the scheduler of that worker, the verdict of that worker on [exe]. *)
Theorem GetScheduler_execute_dispatch env h this exe :
  (1 <= length (_threads this))%nat ->
  exists (thread : addr) (sel : list Event),
    select_thread XXH64 this nullptr 0 env h = Ok (thread, sel) /\
    sel = selector_events env h /\
    In thread (_threads this) /\
    (forall scheduler : addr,
        env addr (h ++ sel) (q_thread thread thr_GetScheduler) = scheduler ->
        GetScheduler XXH64 this env h
        = Ok (scheduler, sel ++ [Ev (q_thread thread thr_GetScheduler) scheduler])) /\
    (forall accepted : bool,
        env bool (h ++ sel) (q_thread thread (thr_execute exe)) = accepted ->
        execute XXH64 this exe env h
        = Ok (accepted, sel ++ [Ev (q_thread thread (thr_execute exe)) accepted])).
Proof.
  intros HN.
  destruct (select_thread_run XXH64 env h this nullptr 0 HN) as [thread [Hrun Hnth]].
  exists thread, (selector_events env h).
  split; [exact Hrun|]. split; [reflexivity|].
  split; [exact (nth_error_In _ _ Hnth)|].
  split; intros answer <-.
  - exact (dispatch_run thr_GetScheduler env h this nullptr 0%nat _ _ Hrun).
  - exact (dispatch_run (thr_execute exe) env h this nullptr 0%nat _ _ Hrun).
Qed.

(** A spec whose first byte is NUL, or that has no byte at all, has the
    empty shard key: in the same circumstances [Listen] and [Connect] on it
    reach the very worker that [GetScheduler] and [execute] reach with the
    sentinel key. *)
Theorem empty_spec_shards_like_sentinel env h this spec streamer adminHandler
        adminContext serverAdapter connContext :
  (1 <= length (_threads this))%nat ->
  strlen spec = 0%nat ->
  exists (thread : addr) (sel : list Event) (scheduler connector connection : addr),
    GetScheduler XXH64 this env h
    = Ok (scheduler, sel ++ [Ev (q_thread thread thr_GetScheduler) scheduler]) /\
    Listen XXH64 this spec streamer serverAdapter env h
    = Ok (connector,
          sel ++ [Ev (q_thread thread (thr_Listen spec streamer serverAdapter))
                     connector]) /\
    Connect XXH64 this spec streamer adminHandler adminContext serverAdapter
            connContext env h
    = Ok (connection,
          sel ++ [Ev (q_thread thread
                        (thr_Connect spec streamer adminHandler adminContext
                                     serverAdapter connContext)) connection]).
Proof.
  intros HN Hlen.
  destruct (select_thread_run XXH64 env h this nullptr 0 HN) as [thread [Hrun _]].
  assert (Hspec : select_thread XXH64 this (ptr_to spec) (strlen spec) env h
                  = Ok (thread, selector_events env h)).
  { rewrite <- Hrun. apply select_thread_same_key. rewrite Hlen. reflexivity. }
  exists thread, (selector_events env h). do 3 eexists.
  split; [exact (dispatch_run thr_GetScheduler env h this nullptr 0%nat _ _ Hrun)|].
  split.
  - exact (Listen_run XXH64 env h this spec streamer serverAdapter _ _ Hspec).
  - exact (Connect_run XXH64 env h this spec streamer adminHandler adminContext
                       serverAdapter connContext _ _ Hspec).
Qed.

(** Where undefined behaviour can arise.  The operations that go through
    the selector are undefined exactly on an empty pool (the [%] divides by
    zero); they never fail an assertion.  The single-thread operations are
    never undefined: their assertion comes before [_threads[0]]. *)
Theorem undefined_only_on_empty_pool env h this key key_len spec streamer
        adminHandler adminContext serverAdapter connContext exe :
  (select_thread XXH64 this key key_len env h = Undefined <-> _threads this = []) /\
  (Listen XXH64 this spec streamer serverAdapter env h = Undefined
   <-> _threads this = []) /\
  (Connect XXH64 this spec streamer adminHandler adminContext serverAdapter
           connContext env h = Undefined <-> _threads this = []) /\
  (GetScheduler XXH64 this env h = Undefined <-> _threads this = []) /\
  (execute XXH64 this exe env h = Undefined <-> _threads this = []) /\
  select_thread XXH64 this key key_len env h <> AssertFail /\
  GetTimeSampler this env h <> Undefined /\
  InitEventLoop this env h <> Undefined /\
  EventLoopIteration this env h <> Undefined /\
  Main this env h <> Undefined.
Proof.
  assert (Hsel : forall key key_len,
             _threads this <> [] ->
             exists thread,
               select_thread XXH64 this key key_len env h
               = Ok (thread, selector_events env h)).
  { intros k l Hne.
    destruct (select_thread_run XXH64 env h this k l (nonempty_pool this Hne))
      as [thread [Hrun _]].
    exists thread. exact Hrun. }
  assert (Hdisp : forall (R : Type) (m : addr -> ThreadMethod R) key key_len,
             bind (select_thread XXH64 this key key_len)
                  (fun thread => perform (q_thread thread (m thread))) env h
             = Undefined <-> _threads this = []).
  { intros R m k l. split.
    - intros Hu. destruct (_threads this) as [|t ts] eqn:Hthreads; [reflexivity|].
      exfalso.
      destruct (Hsel k l ltac:(discriminate)) as [thread Hrun].
      unfold bind in Hu. rewrite Hrun in Hu. unfold perform in Hu. discriminate Hu.
    - apply dispatch_empty_pool. }
  assert (Hsingle : forall (R : Type) (m : ThreadMethod R),
             bind (assert (length (_threads this) =? 1)%nat)
                  (fun _ => bind (threads_at_0 this)
                                 (fun thread => perform (q_thread thread m))) env h
             <> Undefined).
  { intros R m. destruct (Nat.eq_dec (length (_threads this)) 1) as [H1 | Hne].
    - destruct (_threads this) as [|thread [|t' rest]] eqn:Hthreads;
        try discriminate H1.
      rewrite <- Hthreads.
      rewrite (single_thread_run this thread m env h Hthreads). discriminate.
    - rewrite (single_thread_fail this _ env h Hne). discriminate. }
  split.
  { split.
    - intros Hu. destruct (_threads this) as [|t ts] eqn:Hthreads; [reflexivity|].
      exfalso.
      destruct (Hsel key key_len ltac:(discriminate)) as [thread Hrun].
      rewrite Hrun in Hu. discriminate Hu.
    - apply select_thread_empty_pool. }
  split; [exact (Hdisp addr (fun _ => thr_Listen spec streamer serverAdapter) _ _)|].
  split; [exact (Hdisp addr (fun _ => thr_Connect spec streamer adminHandler
                                         adminContext serverAdapter connContext) _ _)|].
  split; [exact (Hdisp addr (fun _ => thr_GetScheduler) _ _)|].
  split; [exact (Hdisp bool (fun _ => thr_execute exe) _ _)|].
  split.
  { destruct (_threads this) as [|t ts] eqn:Hthreads.
    - rewrite (select_thread_empty_pool env h this key key_len Hthreads). discriminate.
    - destruct (Hsel key key_len ltac:(discriminate)) as [thread Hrun].
      rewrite Hrun. discriminate. }
  repeat split; apply Hsingle.
Qed.

(** What the selector depends on: the workers in the pool, the bytes read
    through the key, and the two answers it gets (the address of its local
    and the clock reading).  The resolver of the facade, the history, the
    rest of the environment and the key pointer itself play no part. *)
Theorem select_thread_depends_on env1 h1 env2 h2 this1 this2 key1 len1 key2 len2 :
  _threads this1 = _threads this2 ->
  mem_read key1 len1 = mem_read key2 len2 ->
  local_address env1 h1 = local_address env2 h2 ->
  clock_reading env1 h1 = clock_reading env2 h2 ->
  select_thread XXH64 this1 key1 len1 env1 h1
  = select_thread XXH64 this2 key2 len2 env2 h2.
Proof.
  intros Hthreads Hkey Ha Hc.
  rewrite (select_thread_same_key XXH64 env1 h1 this1 key1 len1 key2 len2 Hkey).
  rewrite (select_thread_same_salt XXH64 env1 h1 env2 h2 this1 key2 len2 Ha Hc).
  unfold select_thread. rewrite Hthreads. reflexivity.
Qed.

End Dispatch.

(* ================================================================== *)
(** ** The pool after construction *)



Section Constructed.

Variable XXH64 : list byte -> Z -> Z.


End Constructed.

Lemma created_threads_length env owner n :
  forall h, length (created_threads env h owner n) = n.
Proof.
  induction n as [|n IH]; intros h; simpl; [reflexivity|].
  rewrite IH. reflexivity.
Qed.

Lemma created_threads_nth env owner n :
  forall h i thread,
    nth_error (created_threads env h owner n) i = Some thread ->
    thread = env addr
                 (h ++ creations owner (firstn i (created_threads env h owner n)))
                 (q_new_thread owner).
Proof.
  induction n as [|n IH]; intros h [|i] thread Hnth;
    simpl in Hnth; try discriminate Hnth.
  - injection Hnth as <-. simpl. rewrite app_nil_r. reflexivity.
  - simpl created_threads. simpl firstn. unfold creations. simpl map.
    rewrite (IH _ i thread Hnth) at 1. unfold creations.
    rewrite <- app_assoc. reflexivity.
Qed.

Lemma new_threads_answers (owner : addr) (num_threads : nat) :
  forall (env : Env) (h : History),
    new_threads owner num_threads env h
    = Ok (created_threads env h owner num_threads,
          creations owner (created_threads env h owner num_threads)).
Proof.
  induction num_threads as [|n IH]; intros env h.
  - reflexivity.
  - simpl new_threads. simpl created_threads.
    set (t := env addr h (q_new_thread owner)).
    apply (bind_Ok _ _ env h t [Ev (q_new_thread owner) t]); [apply perform_run|].
    rewrite <- (app_nil_r (creations owner _)).
    apply (bind_Ok _ _ env _ _ _ _ _ (IH env _)). reflexivity.
Qed.

Lemma ctor_answers (this_addr resolver : addr) (num_threads : nat) env h :
  (1 <= num_threads)%nat ->
  FNET_Transport_ctor this_addr resolver num_threads env h
  = Ok ({| _async_resolver := resolver;
           _threads := created_threads env h this_addr num_threads |},
        creations this_addr (created_threads env h this_addr num_threads)).
Proof.
  intros Hge. unfold FNET_Transport_ctor, bind, assert.
  destruct (Nat.leb_spec 1 num_threads); [|lia].
  rewrite new_threads_answers. unfold ret. simpl.
  rewrite !app_nil_r. reflexivity.
Qed.

(** The life of a facade.  With [num_threads >= 1] the run creates
    [num_threads] workers, then calls [Start(pool)], [ShutDown(true)] and
    [WaitFinished] on exactly the workers the environment handed out, each
    round in the order of creation, and ends with
    [wait_for_pending_resolves] on the resolver it was given; it returns
    the conjunction of the answers those workers gave to [Start]. *)
Theorem lifecycle_run (env : Env) (h : History) (this_addr resolver : addr)
        (num_threads : nat) (pool : addr) :
  (1 <= num_threads)%nat ->
  let threads := created_threads env h this_addr num_threads in
  let h1 := h ++ creations this_addr threads in
  let started := thread_answers env h1 (thr_Start pool) threads in
  length threads = num_threads /\
  (forall (i : nat) (thread : addr),
      nth_error threads i = Some thread ->
      thread = env addr (h ++ creations this_addr (firstn i threads))
                   (q_new_thread this_addr)) /\
  (forall (i : nat) (thread : addr),
      nth_error threads i = Some thread ->
      nth_error started i
      = Some (env bool
                  (h1 ++ calls_on (thr_Start pool) (firstn i threads)
                                  (firstn i started))
                  (q_thread thread (thr_Start pool)))) /\
  lifecycle this_addr resolver num_threads pool env h
  = Ok (all_true started,
        creations this_addr threads
        ++ calls_on (thr_Start pool) threads started
        ++ calls_on (thr_ShutDown true) threads (repeat tt num_threads)
        ++ calls_on thr_WaitFinished threads (repeat tt num_threads)
        ++ [Ev (q_resolver resolver res_wait_for_pending_resolves) tt]).
Proof.
  intros Hge threads h1 started.
  assert (Hlen : length threads = num_threads) by apply created_threads_length.
  split; [exact Hlen|].
  split; [apply created_threads_nth|].
  split; [apply thread_answers_nth|].
  set (new := {| _async_resolver := resolver; _threads := threads |}).
  unfold lifecycle.
  apply (bind_Ok _ _ env h new (creations this_addr threads));
    [exact (ctor_answers this_addr resolver num_threads env h Hge)|].
  apply (bind_Ok _ _ env _ (all_true started)
                 (calls_on (thr_Start pool) threads started));
    [exact (Start_loop_answers threads pool true env h1)|].
  apply (bind_Ok _ _ env _ tt (calls_on (thr_ShutDown true) threads
                                        (repeat tt num_threads))).
  { unfold ShutDown. rewrite <- Hlen. apply for_each_perform_run. }
  apply (bind_Ok _ _ env _ tt (calls_on thr_WaitFinished threads
                                        (repeat tt num_threads))).
  { unfold WaitFinished. rewrite <- Hlen. apply for_each_perform_run. }
  rewrite <- (app_nil_r [Ev (q_resolver resolver res_wait_for_pending_resolves) tt]).
  apply (bind_Ok _ _ env _ tt
                 [Ev (q_resolver resolver res_wait_for_pending_resolves) tt]).
  { apply perform_unit. }
  reflexivity.
Qed.

(* ================================================================== *)
(** ** What the operations on the pool never do *)

Lemma calls_on_pool_event {R : Type} (m : ThreadMethod R)
      (this : FNET_Transport) (threads : list addr) :
  incl threads (_threads this) ->
  forall answers : list R, Forall (pool_event this) (calls_on m threads answers).
Proof.
  induction threads as [|t threads IH]; intros Hincl [|a answers];
    try (constructor; fail).
  rewrite calls_on_cons. constructor.
  - simpl. apply Hincl. left. reflexivity.
  - apply IH. intros x Hx. apply Hincl. right. exact Hx.
Qed.

Lemma broadcast_confined (m : ThreadMethod unit) (this : FNET_Transport) :
  emits_only (pool_event this)
             (for_each (fun thread => perform (q_thread thread m)) (_threads this)).
Proof.
  intros env h a tr Hrun. rewrite for_each_perform_run in Hrun.
  injection Hrun as _ <-. apply calls_on_pool_event. apply incl_refl.
Qed.

Lemma single_thread_confined {R : Type} (m : ThreadMethod R)
      (this : FNET_Transport) :
  emits_only (pool_event this)
    (bind (assert (length (_threads this) =? 1)%nat)
          (fun _ => bind (threads_at_0 this)
                         (fun thread => perform (q_thread thread m)))).
Proof.
  intros env h a tr Hrun.
  destruct (Nat.eq_dec (length (_threads this)) 1) as [H1 | Hne].
  - destruct (_threads this) as [|thread [|t' rest]] eqn:Hthreads;
      try discriminate H1.
    rewrite <- Hthreads in Hrun.
    rewrite (single_thread_run this thread m env h Hthreads) in Hrun.
    injection Hrun as _ <-. repeat constructor.
    simpl. rewrite Hthreads. left. reflexivity.
  - rewrite (single_thread_fail this _ env h Hne) in Hrun. discriminate Hrun.
Qed.

Lemma dispatch_confined (XXH64 : list byte -> Z -> Z) {R : Type}
      (m : ThreadMethod R) (this : FNET_Transport) key key_len :
  emits_only (pool_event this)
    (bind (select_thread XXH64 this key key_len)
          (fun thread => perform (q_thread thread m))).
Proof.
  intros env h a tr Hrun.
  destruct (_threads this) as [|t ts] eqn:Hthreads.
  - rewrite (dispatch_empty_pool XXH64 _ env h this key key_len Hthreads) in Hrun.
    discriminate Hrun.
  - assert (HN : (1 <= length (_threads this))%nat)
      by (rewrite Hthreads; simpl; lia).
    destruct (select_thread_run XXH64 env h this key key_len HN)
      as [thread [Hsel Hnth]].
    rewrite (dispatch_run XXH64 m env h this key key_len _ _ Hsel) in Hrun.
    injection Hrun as _ <-.
    repeat constructor. simpl.
    exact (nth_error_In _ _ Hnth).
Qed.

(** After construction the facade never creates a worker, and apart from
    [resolve_async] and the destructor it never calls the resolver: every
    event of the endpoint, dispatch, broadcast, aggregation, start and
    single-thread operations is a selector query or a call on a worker of
    the facade's own pool. *)
Theorem pool_operations_confined (XXH64 : list byte -> Z -> Z)
        (this : FNET_Transport) (spec : c_str) (streamer adminHandler : addr)
        (adminContext : Z) (serverAdapter : addr) (connContext : Z)
        (exe pool : addr) (ms bytes : Z) (flag : bool) :
  let confined {A : Type} (m : M A) := emits_only (pool_event this) m in
  confined (Listen XXH64 this spec streamer serverAdapter) /\
  confined (Connect XXH64 this spec streamer adminHandler adminContext
                    serverAdapter connContext) /\
  confined (GetScheduler XXH64 this) /\
  confined (execute XXH64 this exe) /\
  confined (GetNumIOComponents this) /\
  confined (Start this pool) /\
  confined (SetIOCTimeOut this ms) /\
  confined (SetMaxInputBufferSize this bytes) /\
  confined (SetMaxOutputBufferSize this bytes) /\
  confined (SetDirectWrite this flag) /\
  confined (SetTCPNoDelay this flag) /\
  confined (SetLogStats this flag) /\
  confined (sync this) /\
  confined (ShutDown this flag) /\
  confined (WaitFinished this) /\
  confined (GetTimeSampler this) /\
  confined (InitEventLoop this) /\
  confined (EventLoopIteration this) /\
  confined (Main this).
Proof.
  cbv zeta.
  split; [apply dispatch_confined|]. split; [apply dispatch_confined|].
  split; [apply dispatch_confined|]. split; [apply dispatch_confined|].
  split.
  { intros env h a tr Hrun.
    destruct (GetNumIOComponents_loop_run (_threads this) 0 env h)
      as [counts [_ Hloop]].
    unfold GetNumIOComponents in Hrun. rewrite Hloop in Hrun.
    injection Hrun as _ <-. apply calls_on_pool_event. apply incl_refl. }
  split.
  { intros env h a tr Hrun.
    destruct (Start_loop_run (_threads this) pool true env h)
      as [started [_ Hloop]].
    unfold Start in Hrun. rewrite Hloop in Hrun.
    injection Hrun as _ <-. apply calls_on_pool_event. apply incl_refl. }
  do 9 (split; [apply broadcast_confined|]).
  do 3 (split; [apply single_thread_confined|]).
  apply single_thread_confined.
Qed.

(* ================================================================== *)
(** ** The count of I/O components within 32 bits *)




(* ================================================================== *)
(** ** The bytes of a [HashState] *)

Lemma byte_to_Z_to_byte (x : Z) : byte_to_Z (Z_to_byte x) = x mod 256.
Proof.
  unfold byte_to_Z, Z_to_byte.
  assert (Hb : 0 <= x mod 256 < 256) by (apply Z.mod_pos_bound; lia).
  destruct (Byte.of_N (Z.to_N (x mod 256))) as [b|] eqn:E.
  - apply Byte.to_of_N in E. rewrite E. rewrite Z2N.id; lia.
  - apply Byte.of_N_None_iff in E. lia.
Qed.

Lemma length_le_encode (n : nat) : forall x, length (le_encode n x) = n.
Proof.
  induction n as [|n IH]; intros x; simpl; [reflexivity|]. rewrite IH. reflexivity.
Qed.

Lemma le_decode_encode (n : nat) :
  forall x, le_decode (le_encode n x) = x mod 2 ^ (8 * Z.of_nat n).
Proof.
  induction n as [|n IH]; intros x.
  - simpl. rewrite Z.mod_1_r. reflexivity.
  - simpl le_encode. simpl le_decode. rewrite byte_to_Z_to_byte, IH.
    rewrite Z.shiftr_div_pow2 by lia.
    replace (8 * Z.of_nat (S n)) with (8 + 8 * Z.of_nat n) by lia.
    rewrite Z.pow_add_r by lia.
    change (2 ^ 8) with 256.
    rewrite Z.rem_mul_r by lia. reflexivity.
Qed.

Lemma firstn_app_exact (A : Type) (a b : list A) (n : nat) :
  length a = n -> firstn n (a ++ b) = a.
Proof.
  intros <-. rewrite firstn_app, Nat.sub_diag, firstn_all, firstn_O.
  apply app_nil_r.
Qed.

Lemma skipn_app_exact (A : Type) (a b : list A) (n : nat) :
  length a = n -> skipn n (a ++ b) = b.
Proof.
  intros <-. rewrite skipn_app, Nat.sub_diag, skipn_all. reflexivity.
Qed.

(** The [sizeof(hash_state)] bytes that the second hash reads are 24, and
    they hold the three members in full: reading them back gives the
    address, the timestamp and the first hash as 64-bit values.  So two
    calls whose address, timestamp or key hash differ hash different bytes. *)
Theorem object_bytes_round_trip (hs : HashState) :
  length (object_bytes hs) = 24%nat /\
  HashState_of_bytes (object_bytes hs)
  = {| self := u64 (self hs); now := u64 (now hs); key_hash := u64 (key_hash hs) |} /\
  (forall hs' : HashState,
      object_bytes hs = object_bytes hs' ->
      u64 (self hs) = u64 (self hs') /\
      u64 (now hs) = u64 (now hs') /\
      u64 (key_hash hs) = u64 (key_hash hs')).
Proof.
  assert (Hround : forall s,
             HashState_of_bytes (object_bytes s)
             = {| self := u64 (self s); now := u64 (now s);
                  key_hash := u64 (key_hash s) |}).
  { intros s. unfold HashState_of_bytes, object_bytes.
    pose proof (length_le_encode 8 (self s)) as L1.
    pose proof (length_le_encode 8 (now s)) as L2.
    pose proof (length_le_encode 8 (key_hash s)) as L3.
    rewrite (skipn_app_exact _ (le_encode 8 (self s)) _ 8 L1).
    rewrite app_assoc.
    rewrite (skipn_app_exact _ (le_encode 8 (self s) ++ le_encode 8 (now s)) _ 16)
      by (rewrite length_app, L1, L2; reflexivity).
    rewrite <- app_assoc.
    rewrite (firstn_app_exact _ (le_encode 8 (self s)) _ 8 L1).
    rewrite (firstn_app_exact _ (le_encode 8 (now s)) _ 8 L2).
    rewrite <- (app_nil_r (le_encode 8 (key_hash s))).
    rewrite (firstn_app_exact _ (le_encode 8 (key_hash s)) [] 8 L3).
    rewrite !(le_decode_encode 8). reflexivity. }
  split.
  - unfold object_bytes. rewrite !length_app, !length_le_encode. reflexivity.
  - split; [apply Hround|].
    intros hs' Heq.
    pose proof (Hround hs) as H1. pose proof (Hround hs') as H2.
    rewrite Heq in H1. rewrite H1 in H2.
    injection H2 as Hs Hn Hk. repeat split; assumption.
Qed.

(* ================================================================== *)
(** ** These theorems at sample inputs *)

Lemma GetScheduler_execute_dispatch_witness :
  (1 <= length (_threads pool3))%nat /\
  exists (thread : addr) (sel : list Event),
    In thread (_threads pool3) /\
    GetScheduler XXH.XXH64_ref pool3 (sample_env 0 0) []
    = Ok (0, sel ++ [Ev (q_thread thread thr_GetScheduler) 0]) /\
    execute XXH.XXH64_ref pool3 77 (sample_env 0 0) []
    = Ok (true, sel ++ [Ev (q_thread thread (thr_execute 77)) true]).
Proof.
  assert (HN : (1 <= length (_threads pool3))%nat) by (simpl; lia).
  split; [exact HN|].
  destruct (GetScheduler_execute_dispatch XXH.XXH64_ref (sample_env 0 0) []
              pool3 77 HN) as [thread [sel [_ [_ [Hin [HG HE]]]]]].
  exists thread, sel. split; [exact Hin|].
  split; [apply HG | apply HE]; reflexivity.
Defined.

Lemma empty_spec_shards_like_sentinel_witness :
  let spec := x00 :: sample_spec in
  (1 <= length (_threads pool4))%nat /\
  strlen spec = 0%nat /\
  exists (thread : addr) (sel : list Event) (scheduler connector : addr),
    GetScheduler XXH.XXH64_ref pool4 (sample_env 0 0) []
    = Ok (scheduler, sel ++ [Ev (q_thread thread thr_GetScheduler) scheduler]) /\
    Listen XXH.XXH64_ref pool4 spec 1 2 (sample_env 0 0) []
    = Ok (connector, sel ++ [Ev (q_thread thread (thr_Listen spec 1 2)) connector]).
Proof.
  cbv zeta.
  assert (HN : (1 <= length (_threads pool4))%nat) by (simpl; lia).
  assert (Hlen : strlen (x00 :: sample_spec) = 0%nat) by reflexivity.
  split; [exact HN|]. split; [exact Hlen|].
  destruct (empty_spec_shards_like_sentinel XXH.XXH64_ref (sample_env 0 0) []
              pool4 (x00 :: sample_spec) 1 3 4 2 5 HN Hlen)
    as [thread [sel [scheduler [connector [_ [HG [HL _]]]]]]].
  exists thread, sel, scheduler, connector. split; [exact HG | exact HL].
Defined.

Lemma undefined_only_on_empty_pool_witness :
  Listen XXH.XXH64_ref (pool_of []) sample_spec 1 2 (sample_env 0 0) [] = Undefined /\
  GetScheduler XXH.XXH64_ref pool2 (sample_env 0 0) [] <> Undefined /\
  Main (pool_of []) (sample_env 0 0) [] <> Undefined.
Proof.
  destruct (undefined_only_on_empty_pool XXH.XXH64_ref (sample_env 0 0) []
              (pool_of []) nullptr 0 sample_spec 1 3 4 2 5 77)
    as [_ [[_ HL] [_ [_ [_ [_ [_ [_ [_ HM]]]]]]]]].
  destruct (undefined_only_on_empty_pool XXH.XXH64_ref (sample_env 0 0) []
              pool2 nullptr 0 sample_spec 1 3 4 2 5 77)
    as [_ [_ [_ [[HG _] _]]]].
  split; [apply HL; reflexivity|].
  split; [|exact HM].
  intros Hu. apply HG in Hu. discriminate Hu.
Defined.

Lemma select_thread_depends_on_witness :
  let this2 := {| _async_resolver := 99; _threads := _threads pool4 |} in
  let key2 := ptr_to (sample_spec ++ x00 :: sample_spec) in
  select_thread XXH.XXH64_ref pool4 (ptr_to sample_spec) (strlen sample_spec)
                (sample_env 0 0) []
  = select_thread XXH.XXH64_ref this2 key2 15 (sample_env 7 4096) [].
Proof.
  cbv zeta.
  apply (select_thread_depends_on XXH.XXH64_ref (sample_env 0 0) []
           (sample_env 7 4096) []); reflexivity.
Defined.


Lemma lifecycle_run_witness :
  (1 <= 2)%nat /\
  lifecycle 512 64 2 7 (sample_env 0 8192) []
  = Ok (false,
        [Ev (q_new_thread 512) 4096; Ev (q_new_thread 512) 8192;
         Ev (q_thread 4096 (thr_Start 7)) true;
         Ev (q_thread 8192 (thr_Start 7)) false;
         Ev (q_thread 4096 (thr_ShutDown true)) tt;
         Ev (q_thread 8192 (thr_ShutDown true)) tt;
         Ev (q_thread 4096 thr_WaitFinished) tt;
         Ev (q_thread 8192 thr_WaitFinished) tt;
         Ev (q_resolver 64 res_wait_for_pending_resolves) tt]).
Proof.
  assert (Hge : (1 <= 2)%nat) by lia.
  split; [exact Hge|].
  destruct (lifecycle_run (sample_env 0 8192) [] 512 64 2 7 Hge)
    as [_ [_ [_ Hrun]]].
  exact Hrun.
Defined.

Lemma pool_operations_confined_witness :
  Start pool3 7 (sample_env 0 8192) []
  = Ok (false, [Ev (q_thread 4096 (thr_Start 7)) true;
                Ev (q_thread 8192 (thr_Start 7)) false;
                Ev (q_thread 12288 (thr_Start 7)) true]) /\
  Forall (pool_event pool3)
         [Ev (q_thread 4096 (thr_Start 7)) true;
          Ev (q_thread 8192 (thr_Start 7)) false;
          Ev (q_thread 12288 (thr_Start 7)) true].
Proof.
  assert (Hrun : Start pool3 7 (sample_env 0 8192) []
                 = Ok (false, [Ev (q_thread 4096 (thr_Start 7)) true;
                               Ev (q_thread 8192 (thr_Start 7)) false;
                               Ev (q_thread 12288 (thr_Start 7)) true]))
    by reflexivity.
  split; [exact Hrun|].
  destruct (pool_operations_confined XXH.XXH64_ref pool3 sample_spec 1 3 4 2 5
              77 7 0 0 true) as [_ [_ [_ [_ [_ [HStart _]]]]]].
  exact (HStart (sample_env 0 8192) [] _ _ Hrun).
Defined.


(** [Start_all_and] on three workers of which the second does not start. *)
Lemma Start_all_and_witness :
  Start pool3 7 (sample_env 0 8192) []
  = Ok (false, [Ev (q_thread 4096 (thr_Start 7)) true;
                Ev (q_thread 8192 (thr_Start 7)) false;
                Ev (q_thread 12288 (thr_Start 7)) true]) /\
  nth_error (thread_answers (sample_env 0 8192) [] (thr_Start 7) (_threads pool3)) 1
  = Some false.
Proof.
  destruct (Start_all_and (sample_env 0 8192) [] pool3 7)
    as [_ [Hnth [Hrun _]]].
  split; [exact Hrun|].
  rewrite (Hnth 1%nat 8192 eq_refl). reflexivity.
Defined.

(** [GetNumIOComponents_sum_mod] on three workers with five components each. *)
Lemma GetNumIOComponents_sum_mod_witness :
  GetNumIOComponents pool3 (sample_env 5 0) []
  = Ok (15, [Ev (q_thread 4096 thr_GetNumIOComponents) 5;
             Ev (q_thread 8192 thr_GetNumIOComponents) 5;
             Ev (q_thread 12288 thr_GetNumIOComponents) 5]) /\
  u32 15 = 15.
Proof.
  destruct (GetNumIOComponents_sum_mod (sample_env 5 0) [] pool3)
    as [_ [_ [Hrun [_ Hexact]]]].
  split; [exact Hrun|].
  refine (proj2 Hexact _). vm_compute. split; congruence.
Defined.

Lemma object_bytes_round_trip_witness :
  let hs := {| self := 140737488347904; now := 1700000000000000001;
               key_hash := 2 ^ 64 - 1 |} in
  length (object_bytes hs) = 24%nat /\
  HashState_of_bytes (object_bytes hs) = hs.
Proof.
  cbv zeta.
  destruct (object_bytes_round_trip
              {| self := 140737488347904; now := 1700000000000000001;
                 key_hash := 2 ^ 64 - 1 |}) as [Hlen [Hround _]].
  split; [exact Hlen|]. rewrite Hround. reflexivity.
Defined.
